(** * wordlistdawg: the validator of [scripts/build_dawg.mjs] and the
      runtime API of [src/dict.ts]

    A shallow embedding of the two source files and the properties of
    their behaviour.

    - A JavaScript string is a sequence of UTF-16 code units: [jsstring]
      is [list N].  String literals of the source are written [js "..."].
    - A function that can [throw] returns a [Result]; the thrown [Error]
      objects are the constructors of [error], one per [throw] statement
      of the source, carrying the values interpolated in its message.
    - The module variables [trie] and [loadPromise] of [dict.ts] are the
      record [Vars]; the synchronous functions run in a state-and-error
      monad over it, [loadDictionary] is a transition system whose steps
      are the segments of code between two [await]s.
    - What the platform provides ([String.prototype.toUpperCase], [window],
      [URL]) is the class [Host]; the packed trie of the [dawg-lookup]
      library is a value of the record [TrieLike], as in the source.
    - The rest of the build script ([parseWordsFile], [buildPackedDawg],
      [writeMeta], [copyDawgLookupLicense], [buildDawgFromWordsFile]) runs
      in a monad that records what the script asks of the file system,
      the console and the library; the answers are the class
      [BuildEnv]. *)

From Stdlib Require Import Ascii String DecimalString List NArith Bool Arith Lia.
Import ListNotations.

(** ** JavaScript strings *)

Definition jsstring : Type := list N.

(** The code units of an ASCII literal. *)
Definition js (s : string) : jsstring :=
  map N_of_ascii (list_ascii_of_string s).

(** [a === b] on strings. *)
Fixpoint str_eqb (a b : jsstring) : bool :=
  match a, b with
  | [], [] => true
  | x :: a', y :: b' => N.eqb x y && str_eqb a' b'
  | _, _ => false
  end.

(** [a < b] on strings: the first differing code unit decides, a proper
    prefix is smaller. *)
Fixpoint str_ltb (a b : jsstring) : bool :=
  match a, b with
  | _, [] => false
  | [], _ :: _ => true
  | x :: a', y :: b' =>
      if N.ltb x y then true
      else if N.eqb x y then str_ltb a' b'
      else false
  end.

(** [a >= b] on strings is the negation of [a < b]. *)
Definition str_geb (a b : jsstring) : bool := negb (str_ltb a b).

(** [s.startsWith(p)]. *)
Fixpoint starts_with (p s : jsstring) : bool :=
  match p, s with
  | [], _ => true
  | x :: p', y :: s' => N.eqb x y && starts_with p' s'
  | _ :: _, [] => false
  end.

(** The character class [[A-Z]]. *)
Definition isAZ (c : N) : bool := N.leb 65 c && N.leb c 90.

(** ** Thrown errors *)

Inductive error : Type :=
  (** "words.txt must be strictly sorted and unique. Index ${i - 1}='${words[i - 1]}', ${i}='${words[i]}'" *)
  | SortedUniqueError (iPrev : nat) (wPrev : jsstring) (i : nat) (w : jsstring)
  (** "Dictionary not loaded. Call loadDictionary() first." *)
  | NotLoadedError
  (** "Loaded DAWG trie does not expose a prefix lookup method." *)
  | NoPrefixLookupError
  (** "Failed to load dictionary metadata from ${metaUrl}: ${metaResponse.status}" *)
  | MetaLoadError (metaUrl : jsstring) (status : N)
  (** "Failed to load dictionary data from ${dawgUrl}: ${dawgResponse.status}" *)
  | DataLoadError (dawgUrl : jsstring) (status : N)
  (** "Unable to resolve PTrie constructor from dawg-lookup/lib/ptrie." *)
  | CtorUnresolvedError
  (** An exception or rejection that comes from the platform or from the
      library: a failed [fetch], [json()], [text()], [import()],
      [new URL] or [new PTrie]. *)
  | HostError (what : string).

(** [`${n}`] for a non-negative integer. *)
Definition decimal (n : N) : jsstring :=
  js (NilEmpty.string_of_uint (N.to_uint n)).

(** The [message] of the [Error] object. *)
Definition message (e : error) : jsstring :=
  match e with
  | SortedUniqueError iPrev wPrev i w =>
      js "words.txt must be strictly sorted and unique. Index "
      ++ decimal (N.of_nat iPrev) ++ js "='" ++ wPrev ++ js "', "
      ++ decimal (N.of_nat i) ++ js "='" ++ w ++ js "'"
  | NotLoadedError =>
      js "Dictionary not loaded. Call loadDictionary() first."
  | NoPrefixLookupError =>
      js "Loaded DAWG trie does not expose a prefix lookup method."
  | MetaLoadError metaUrl status =>
      js "Failed to load dictionary metadata from " ++ metaUrl
      ++ js ": " ++ decimal status
  | DataLoadError dawgUrl status =>
      js "Failed to load dictionary data from " ++ dawgUrl
      ++ js ": " ++ decimal status
  | CtorUnresolvedError =>
      js "Unable to resolve PTrie constructor from dawg-lookup/lib/ptrie."
  | HostError what => js what
  end.

Inductive Result (A : Type) : Type :=
  | Ok (a : A)
  | Err (e : error).

Arguments Ok {A} a.
Arguments Err {A} e.

(** ** scripts/build_dawg.mjs *)

Module BuildDawg.

(** [words[i]]; the loop below only reads inside the array. *)
Definition at_index (words : list jsstring) (i : nat) : jsstring :=
  nth i words [].

(** The loop [for (let i = 1; i < words.length; i += 1)], entered at
    index [i] with [n] iterations left. *)
Fixpoint for_loop (words : list jsstring) (i n : nat) : Result unit :=
  match n with
  | 0 => Ok tt
  | S n' =>
      if str_geb (at_index words (i - 1)) (at_index words i)
      then Err (SortedUniqueError (i - 1) (at_index words (i - 1))
                                  i (at_index words i))
      else for_loop words (S i) n'
  end.

Definition assertSortedUnique (words : list jsstring) : Result unit :=
  for_loop words 1 (length words - 1).

(** Every adjacent pair is strictly increasing. *)
Definition strictly_increasing (words : list jsstring) : Prop :=
  forall i, 1 <= i < length words ->
    str_ltb (at_index words (i - 1)) (at_index words i) = true.

(** Some element has a character outside A-Z. *)
Definition outside_alphabet (words : list jsstring) : Prop :=
  exists w, In w words /\ forallb isAZ w = false.

End BuildDawg.

(** ** src/dict.ts *)

(** The type [TrieLike]: what [dict.ts] expects of the object that
  [new PTrie(packed)] returns.  [isWord] is required, the three prefix
  methods are optional.  The methods are the library's: a call returns
  a value or throws. *)
Module TrieLike.
Record t : Type := {
  isWord : jsstring -> Result bool;
  isPrefix : option (jsstring -> Result bool);
  hasPrefix : option (jsstring -> Result bool);
  completions : option (jsstring -> option N -> Result (list jsstring))
}.
End TrieLike.

(** What the JavaScript host provides. *)
Class Host : Type := {
(** [String.prototype.toUpperCase] *)
toUpperCase : jsstring -> jsstring;
(** [window.location.href]; [None] when [typeof window === "undefined"] *)
window_location_href : option jsstring;
(** [new URL(url, base).toString()], which throws on an invalid URL *)
newURL : jsstring -> jsstring -> Result jsstring
}.

Module Dict.

(** *** Types *)

Record Artifacts : Type := { dawgFile : option jsstring }.
Record DictMeta : Type := { artifacts : option Artifacts }.

(** A promise is named by the position of its load in [tasks] below. *)
Definition PromiseId : Type := nat.

(** [let trie: TrieLike | null = null;]
    [let loadPromise: Promise<void> | null = null;] *)
Record Vars : Type := {
  trie : option TrieLike.t;
  loadPromise : option PromiseId
}.

Definition initial : Vars := {| trie := None; loadPromise := None |}.

(** *** Code that reads and writes the module variables and can throw *)

Definition M (A : Type) : Type := Vars -> Result A * Vars.

Definition ret {A} (a : A) : M A := fun v => (Ok a, v).

Definition throw {A} (e : error) : M A := fun v => (Err e, v).

Definition bind {A B} (m : M A) (k : A -> M B) : M B :=
  fun v =>
    match m v with
    | (Ok a, v') => k a v'
    | (Err e, v') => (Err e, v')
    end.

Notation "x <- m ;; k" := (bind m (fun x => k))
  (at level 61, m at next level, right associativity).
Notation "m ;;; k" := (bind m (fun _ => k))
  (at level 61, right associativity).

Definition read_trie : M (option TrieLike.t) := fun v => (Ok (trie v), v).

Definition write_trie (t : option TrieLike.t) : M unit :=
  fun v => (Ok tt, {| trie := t; loadPromise := loadPromise v |}).

Definition write_loadPromise (p : option PromiseId) : M unit :=
  fun v => (Ok tt, {| trie := trie v; loadPromise := p |}).

(** A call of a method of the library: its value, or its exception,
    which is not caught. *)
Definition lift {A} (r : Result A) : M A := fun v => (r, v).

(** The value a call returns or the error it throws. *)
Definition outcome {A} (r : Result A * Vars) : Result A := fst r.

(** The module variables after the call. *)
Definition after {A} (r : Result A * Vars) : Vars := snd r.

(** *** The synchronous functions *)

Definition ensureLoaded : M TrieLike.t :=
  t <- read_trie ;;
  match t with
  | None => throw NotLoadedError
  | Some t => ret t
  end.

(** [input.replace(/[^A-Z]/gu, "")]: every code point outside A-Z is
    removed; a surrogate pair is outside A-Z with both its units. *)
Definition strip_non_AZ (s : jsstring) : jsstring := filter isAZ s.

Definition normalizeWord `{Host} (input : jsstring) : jsstring :=
  strip_non_AZ (toUpperCase input).

(** [!normalized] *)
Definition is_empty (s : jsstring) : bool :=
  match s with [] => true | _ :: _ => false end.

Definition isWord `{Host} (word : jsstring) : M bool :=
  let normalized := normalizeWord word in
  if is_empty normalized then ret false
  else
    t <- ensureLoaded ;;
    lift (TrieLike.isWord t normalized).

Definition isPrefix `{Host} (prefix : jsstring) : M bool :=
  let normalized := normalizeWord prefix in
  if is_empty normalized then ret false
  else
    loadedTrie <- ensureLoaded ;;
    match TrieLike.isPrefix loadedTrie with
    | Some f => lift (f normalized)
    | None =>
        match TrieLike.hasPrefix loadedTrie with
        | Some f => lift (f normalized)
        | None =>
            match TrieLike.completions loadedTrie with
            | Some f =>
                found <- lift (f normalized (Some 1%N)) ;;
                ret (Nat.ltb 0 (length found))
            | None => throw NoPrefixLookupError
            end
        end
    end.

Definition __resetDictionaryForTests : M unit :=
  write_trie None ;;;
  write_loadPromise None.

Definition resolveAssetUrl `{Host} (metaUrl dawgFile : jsstring)
  : Result jsstring :=
  if starts_with (js "http://") dawgFile
     || starts_with (js "https://") dawgFile
  then Ok dawgFile
  else
    match window_location_href with
    | Some href =>
        match newURL metaUrl href with
        | Ok base => newURL dawgFile base
        | Err e => Err e
        end
    | None => Ok dawgFile
    end.

(** *** loadDictionary *)

(** What [fetch] resolves to, as far as the source reads it. *)
Record Response : Type := { ok : bool; status : N }.

(** [new PTrie(packed)]; the constructor belongs to the library and may
    throw. *)
Definition Ctor : Type := jsstring -> Result TrieLike.t.

(** The default export of the imported module: an object that may have a
    [PTrie] property, or the constructor itself. *)
Inductive DefaultExport : Type :=
  | DefaultObject (PTrie : option Ctor)
  | DefaultCtor (ctor : Ctor).

(** The namespace object that [import("dawg-lookup/lib/ptrie")] resolves
    to. *)
Record ModuleNS : Type := {
  PTrie : option Ctor;
  default : option DefaultExport
}.

(** Lines 41-48 of [loadPTrieCtor]:
    [typedMod.PTrie ?? mod.default?.PTrie ?? mod.default], then the check
    [if (!PTrie)].  A default export that is an object without [PTrie] is
    returned as it is, and [new] throws on it. *)
Definition resolvePTrie (ns : ModuleNS) : Result Ctor :=
  match PTrie ns with
  | Some c => Ok c
  | None =>
      match default ns with
      | Some (DefaultObject (Some c)) => Ok c
      | Some (DefaultObject None) =>
          Ok (fun _ => Err (HostError "PTrie is not a constructor"))
      | Some (DefaultCtor c) => Ok c
      | None => Err CtorUnresolvedError
      end
  end.

(** The points at which the body of the load (the async arrow function of
    lines 63-81, with the body of [loadPTrieCtor]) is suspended. *)
Inductive Stage : Type :=
  | AwaitMetaFetch (metaUrl : jsstring)           (* line 64 *)
  | AwaitMetaJson (metaUrl : jsstring)            (* line 69 *)
  | AwaitDawgFetch (dawgUrl : jsstring)           (* line 73 *)
  | AwaitDawgText                                 (* line 78 *)
  | AwaitImport (packed : jsstring)               (* line 37 *)
  | AwaitImportJs (packed : jsstring)             (* line 39 *)
  | AwaitCtor (packed : jsstring) (r : Result Ctor) (* line 79 *)
  | Done (r : Result unit).

(** The value or rejection with which the awaited promise settles. *)
Inductive Input : Type :=
  | Settled_Response (r : Result Response)
  | Settled_Json (r : Result DictMeta)
  | Settled_Text (r : Result jsstring)
  | Settled_Import (r : Result ModuleNS)
  | Settled_Ctor.

(** What a segment of the body does before it is suspended again. *)
Record Effect : Type := {
  next : Stage;
  fetched : list jsstring;
  assigned : option TrieLike.t
}.

Definition goto (s : Stage) : Effect :=
  {| next := s; fetched := []; assigned := None |}.

Definition reject (e : error) : Effect := goto (Done (Err e)).

(** [meta.artifacts?.dawgFile ?? "dict.dawg"] *)
Definition dawgFile_of (meta : DictMeta) : jsstring :=
  match artifacts meta with
  | Some a =>
      match dawgFile a with
      | Some f => f
      | None => js "dict.dawg"
      end
  | None => js "dict.dawg"
  end.

(** The segment of the body that runs when the promise awaited at stage
    [s] settles with [x]; [None] when [x] is not what stage [s] awaits. *)
Definition body_step `{Host} (s : Stage) (x : Input) : option Effect :=
  match s, x with
  | AwaitMetaFetch metaUrl, Settled_Response (Ok metaResponse) =>
      if negb (ok metaResponse)
      then Some (reject (MetaLoadError metaUrl (status metaResponse)))
      else Some (goto (AwaitMetaJson metaUrl))
  | AwaitMetaFetch _, Settled_Response (Err e) => Some (reject e)
  | AwaitMetaJson metaUrl, Settled_Json (Ok meta) =>
      match resolveAssetUrl metaUrl (dawgFile_of meta) with
      | Ok dawgUrl =>
          Some {| next := AwaitDawgFetch dawgUrl;
                  fetched := [dawgUrl];
                  assigned := None |}
      | Err e => Some (reject e)
      end
  | AwaitMetaJson _, Settled_Json (Err e) => Some (reject e)
  | AwaitDawgFetch dawgUrl, Settled_Response (Ok dawgResponse) =>
      if negb (ok dawgResponse)
      then Some (reject (DataLoadError dawgUrl (status dawgResponse)))
      else Some (goto AwaitDawgText)
  | AwaitDawgFetch _, Settled_Response (Err e) => Some (reject e)
  | AwaitDawgText, Settled_Text (Ok packed) => Some (goto (AwaitImport packed))
  | AwaitDawgText, Settled_Text (Err e) => Some (reject e)
  | AwaitImport packed, Settled_Import (Ok ns) =>
      Some (goto (AwaitCtor packed (resolvePTrie ns)))
  | AwaitImport packed, Settled_Import (Err _) =>
      Some (goto (AwaitImportJs packed))
  | AwaitImportJs packed, Settled_Import (Ok ns) =>
      Some (goto (AwaitCtor packed (resolvePTrie ns)))
  | AwaitImportJs packed, Settled_Import (Err e) =>
      Some (goto (AwaitCtor packed (Err e)))
  | AwaitCtor packed (Ok ctor), Settled_Ctor =>
      match ctor packed with
      | Ok t => Some {| next := Done (Ok tt);
                        fetched := [];
                        assigned := Some t |}
      | Err e => Some (reject e)
      end
  | AwaitCtor _ (Err e), Settled_Ctor => Some (reject e)
  | _, _ => None
  end.

(** A load that was started: where its body stands, and whether the call
    that started it is still suspended at [await loadPromise] (line 84). *)
Record Task : Type := { stage : Stage; ownerWaiting : bool }.

(** The module variables, the loads started so far (the promise of a load
    is its position in the list) and the URLs fetched so far. *)
Record World : Type := {
  vars : Vars;
  tasks : list Task;
  requests : list jsstring
}.

Definition start : World :=
  {| vars := initial; tasks := []; requests := [] |}.

(** What a step shows to the caller. *)
Inductive Output : Type :=
  | Returns                     (* [return;] of line 57 *)
  | Follows (p : PromiseId)     (* [return loadPromise;] of line 60 *)
  | Awaits (p : PromiseId)      (* suspended at line 84 on the new load *)
  | Silent
  | Settles (r : Result unit).  (* the call that started the load settles *)

Fixpoint replace_at {A} (l : list A) (i : nat) (x : A) : list A :=
  match l, i with
  | [], _ => []
  | _ :: l', 0 => x :: l'
  | y :: l', S i' => y :: replace_at l' i' x
  end.

(** A call of [loadDictionary(metaUrl)] up to its first suspension: the
    two guards, then the async arrow function runs up to [await fetch],
    its promise is stored and awaited. *)
Definition loadDictionary (metaUrl : option jsstring) (w : World)
  : World * Output :=
  let metaUrl :=
    match metaUrl with Some u => u | None => js "/dict.meta.json" end in
  match trie (vars w) with
  | Some _ => (w, Returns)
  | None =>
      match loadPromise (vars w) with
      | Some p => (w, Follows p)
      | None =>
          let p := length (tasks w) in
          ({| vars := after (write_loadPromise (Some p) (vars w));
              tasks := tasks w ++ [{| stage := AwaitMetaFetch metaUrl;
                                      ownerWaiting := true |}];
              requests := requests w ++ [metaUrl] |},
           Awaits p)
      end
  end.

(** The body of load [p] resumes with [x]. *)
Definition deliver `{Host} (p : PromiseId) (x : Input) (w : World)
  : option (World * Output) :=
  match nth_error (tasks w) p with
  | Some t =>
      match body_step (stage t) x with
      | Some eff =>
          Some ({| vars := match assigned eff with
                           | Some tr => after (write_trie (Some tr) (vars w))
                           | None => vars w
                           end;
                   tasks := replace_at (tasks w) p
                              {| stage := next eff;
                                 ownerWaiting := ownerWaiting t |};
                   requests := requests w ++ fetched eff |},
                Silent)
      | None => None
      end
  | None => None
  end.

(** The call that started load [p] resumes after [await loadPromise]:
    [finally { loadPromise = null; }], then it returns or rethrows. *)
Definition resume (p : PromiseId) (w : World) : option (World * Output) :=
  match nth_error (tasks w) p with
  | Some t =>
      match stage t with
      | Done r =>
          if ownerWaiting t
          then Some ({| vars := after (write_loadPromise None (vars w));
                        tasks := replace_at (tasks w) p
                                   {| stage := Done r;
                                      ownerWaiting := false |};
                        requests := requests w |},
                     Settles r)
          else None
      | _ => None
      end
  | None => None
  end.

Inductive Event : Type :=
  | Call (metaUrl : option jsstring)
  | Deliver (p : PromiseId) (x : Input)
  | Resume (p : PromiseId).

Definition step `{Host} (w : World) (ev : Event) : option (World * Output) :=
  match ev with
  | Call metaUrl => Some (loadDictionary metaUrl w)
  | Deliver p x => deliver p x w
  | Resume p => resume p w
  end.

(** The worlds that calls of [loadDictionary] and the settling of the
    promises they await lead to.  The queries are not events: they leave
    the module variables as they are.  [__resetDictionaryForTests], the
    hook of the test suite, is not an event either. *)
Inductive Reachable `{Host} : World -> Prop :=
  | Reachable_start : Reachable start
  | Reachable_step w ev w' out :
      Reachable w -> step w ev = Some (w', out) -> Reachable w'.

(** A sequence of events from [w], with the outputs. *)
Fixpoint run `{Host} (w : World) (evs : list Event)
  : option (World * list Output) :=
  match evs with
  | [] => Some (w, [])
  | ev :: evs' =>
      match step w ev with
      | Some (w', out) =>
          match run w' evs' with
          | Some (w'', outs) => Some (w'', out :: outs)
          | None => None
          end
      | None => None
      end
  end.

(** The body of load [p] has not finished. *)
Definition in_flight (w : World) (p : PromiseId) : Prop :=
  exists t, nth_error (tasks w) p = Some t /\
            forall r, stage t <> Done r.

(** The error with which the body of a load suspended at [s] fails when
    it resumes with [x], if it does. *)
Definition failure `{Host} (s : Stage) (x : Input) : option error :=
  match body_step s x with
  | Some eff =>
      match next eff with
      | Done (Err e) => Some e
      | _ => None
      end
  | None => None
  end.

(** A load whose body is finished and whose caller has resumed. *)
Definition idle (t : Task) : Prop :=
  ownerWaiting t = false /\ exists r, stage t = Done r.

(** The shape of the reachable worlds: every load but the one that
    [loadPromise] names is over; the load it names is the last one
    started, its caller is suspended, and [trie] is still [null] unless
    that load has succeeded. *)
Definition single_flight (w : World) : Prop :=
  match loadPromise (vars w) with
  | None => Forall idle (tasks w)
  | Some p =>
      exists before t,
        tasks w = before ++ [t] /\
        length before = p /\
        Forall idle before /\
        ownerWaiting t = true /\
        (stage t = Done (Ok tt) \/ trie (vars w) = None)
  end.

(** The module variables once [t] is loaded. *)
Definition loadedWith (t : TrieLike.t) : Vars :=
  {| trie := Some t; loadPromise := None |}.

End Dict.

(** ** scripts/build_dawg.mjs: the rest of the script *)

Module BuildScript.

(** *** parseWordsFile *)

(** [contents.split(/\r?\n/u)]: every line feed ends a piece, and a
    carriage return that comes directly before it belongs to the
    separator.  There is always at least one piece. *)
Fixpoint split_lines (contents : jsstring) : list jsstring :=
  match contents with
  | [] => [[]]
  | c :: rest =>
      if N.eqb c 10 then [] :: split_lines rest
      else if N.eqb c 13
              && match rest with d :: _ => N.eqb d 10 | [] => false end
      then split_lines rest
      else
        match split_lines rest with
        | line :: lines => (c :: line) :: lines
        | [] => [[c]]
        end
  end.

(** The code units that [trim] removes: the WhiteSpace and LineTerminator
    productions of ECMAScript (TAB, LF, VT, FF, CR, SP, NBSP, the other
    space separators of Unicode, LS, PS and the byte order mark). *)
Definition isWhiteSpace (c : N) : bool :=
  N.eqb c 9 || N.eqb c 10 || N.eqb c 11 || N.eqb c 12 || N.eqb c 13
  || N.eqb c 32 || N.eqb c 160 || N.eqb c 5760
  || (N.leb 8192 c && N.leb c 8202)
  || N.eqb c 8232 || N.eqb c 8233 || N.eqb c 8239 || N.eqb c 8287
  || N.eqb c 12288 || N.eqb c 65279.

Fixpoint trimStart (s : jsstring) : jsstring :=
  match s with
  | [] => []
  | c :: s' => if isWhiteSpace c then trimStart s' else s
  end.

Definition trimEnd (s : jsstring) : jsstring := rev (trimStart (rev s)).

(** [line.trim()] *)
Definition trim (s : jsstring) : jsstring := trimEnd (trimStart s).

(** [Boolean(line)]: a string is truthy when it is not empty. *)
Definition truthy (s : jsstring) : bool :=
  match s with [] => false | _ :: _ => true end.

Definition parseWordsFile (contents : jsstring) : list jsstring :=
  filter truthy (map trim (split_lines contents)).

(** A string that [parseWordsFile] can give back: not empty, no white
    space at either end, no line feed inside. *)
Definition word_like (w : jsstring) : Prop :=
  w <> [] /\ trim w = w /\ ~ In 10%N w.

(** [words.map((w) => w + eol).join("")]: a text file with one word per
    line, each line ended by [eol]. *)
Definition lines_ended_by (eol : jsstring) (words : list jsstring)
  : jsstring :=
  concat (map (fun w => w ++ eol) words).

(** [words.join(eol)] *)
Fixpoint join_by (eol : jsstring) (words : list jsstring) : jsstring :=
  match words with
  | [] => []
  | [w] => w
  | w :: rest => w ++ eol ++ join_by eol rest
  end.

(** [words.join("\n")] *)
Fixpoint join_lines (words : list jsstring) : jsstring :=
  match words with
  | [] => []
  | [w] => w
  | w :: rest => w ++ 10%N :: join_lines rest
  end.

(** *** The file system, the console and the trie library *)

(** A path below ROOT, the directory above [scripts/], by its segments:
    [path.join(ROOT, "licenses", "x")] is ["licenses"; "x"], and ROOT
    itself is []. *)
Definition Path : Type := list string.

Definition WORDS_PATH : Path := ["words.txt"%string].
Definition OUT_PATH : Path := ["dict.dawg"%string].
Definition META_PATH : Path := ["dict.meta.json"%string].
Definition DAWG_FILE_NAME : jsstring := js "dict.dawg".
Definition LICENSES_DIR : Path := ["licenses"%string].
Definition DAWG_LICENSE_DEST : Path :=
  ["licenses"%string; "DAWG-LOOKUP-LICENSE.txt"%string].

(** The two places where [copyDawgLookupLicense] looks for the license. *)
Definition candidates : list Path :=
  [["node_modules"%string; "dawg-lookup"%string; "LICENSE"%string];
   ["node_modules"%string; "dawg-lookup"%string; "LICENSE.md"%string]].

(** [path.dirname] *)
Definition dirname (p : Path) : Path := removelast p.

(** The [detail] argument of the progress messages. *)
Inductive Detail : Type :=
  | Text (s : jsstring)
  | PathName (p : Path).

(** The lines that [ProgressTracker] prints.  The elapsed seconds that
    the "done" and "complete" lines show come from the clock of the host
    and are not part of the model. *)
Inductive LogLine : Type :=
  | StepLine (currentStep totalSteps : nat) (title : string)
      (* "[${currentStep}/${totalSteps}] ${title}" *)
  | DetailLine (detail : Detail)
      (* "    ${detail}" *)
  | DoneLine (detail : option Detail)
      (* "    done in ...s (${detail})" or "    done in ...s" *)
  | CompleteLine.
      (* "[complete] DAWG build finished in ...s" *)

(** What the script asks of the host, in the order in which it asks. *)
Inductive Action : Type :=
  | Logged (line : LogLine)                  (* console.log *)
  | Read (p : Path)                          (* fs.readFile(p, "utf8") *)
  | Accessed (p : Path)                      (* fs.access(p) *)
  | Imported (specifier : string)            (* import(specifier) *)
  | MadeDir (p : Path)                       (* fs.mkdir(p, { recursive: true }) *)
  | Wrote (p : Path) (content : jsstring)    (* fs.writeFile(p, content, "utf8") *)
  | Copied (src dst : Path).                 (* fs.copyFile(src, dst) *)

(** The class [Trie] of the library: how an instance is made, the
    methods the script looks for on it, and [pack].  The instance is
    mutable in JavaScript; here a method returns the instance after the
    call. *)
Record TrieClass : Type := {
  instance : Type;
  construct : Result instance;
  addWords : option (list jsstring -> instance -> Result instance);
  insert : option (jsstring -> instance -> Result instance);
  (** [None]: [typeof packed !== "string"] *)
  pack : instance -> Result (option jsstring)
}.

(** The default export of the imported module: an object that may have a
    [Trie] property, or the class itself. *)
Inductive DefaultTrieExport : Type :=
  | DefaultObject (Trie : option TrieClass)
  | DefaultClass (cls : TrieClass).

(** The namespace object that [import("dawg-lookup/lib/trie")] resolves
    to. *)
Record TrieModule : Type := {
  Trie : option TrieClass;
  default : option DefaultTrieExport
}.

(** A JSON value, as [JSON.parse] returns it.  The properties of an
    object are listed in the order in which JavaScript enumerates them. *)
#[local] Unset Elimination Schemes.

Inductive Json (number : Type) : Type :=
  | JNull
  | JBool (b : bool)
  | JNumber (n : number)
  | JString (s : jsstring)
  | JArray (items : list (Json number))
  | JObject (props : list (jsstring * Json number)).

#[local] Set Elimination Schemes.

Arguments JNull {number}.
Arguments JBool {number} b.
Arguments JNumber {number} n.
Arguments JString {number} s.
Arguments JArray {number} items.
Arguments JObject {number} props.

(** What the host answers.  An answer may depend on everything that was
    asked before it. *)
Class BuildEnv (number : Type) : Type := {
  (** the number [n] of JavaScript *)
  number_of_N : N -> number;
  fs_readFile : list Action -> Path -> Result jsstring;
  (** [true]: the promise of [fs.access] is fulfilled *)
  fs_access : list Action -> Path -> bool;
  fs_mkdir : list Action -> Path -> Result unit;
  fs_writeFile : list Action -> Path -> jsstring -> Result unit;
  fs_copyFile : list Action -> Path -> Path -> Result unit;
  (** [error.code] *)
  error_code : error -> option string;
  import_module : list Action -> string -> Result TrieModule;
  (** [crypto.createHash("sha256").update(input).digest("hex")] *)
  sha256Hex : jsstring -> jsstring;
  JSON_parse : jsstring -> Result (Json number);
  (** [JSON.stringify(value, null, 2)] *)
  JSON_stringify : Json number -> jsstring
}.

(** The errors that the script throws, besides those of [error]. *)
Inductive failure : Type :=
  | Thrown (e : error)
  (** "Unable to resolve Trie constructor from dawg-lookup/lib/trie." *)
  | TrieCtorUnresolved
  (** "Trie implementation does not expose addWords() or insert()." *)
  | NoInsertMethod
  (** "Expected trie.pack() to return a string payload." *)
  | PackedNotString
  (** "Could not find dawg-lookup LICENSE in node_modules. Run npm install before dict:dawg." *)
  | LicenseNotFound.

Inductive Outcome (A : Type) : Type :=
  | Returned (a : A)
  | Threw (f : failure).

Arguments Returned {A} a.
Arguments Threw {A} f.

(** *** Code that talks to the host and can throw *)

Definition B (A : Type) : Type := list Action -> Outcome A * list Action.

Definition ret {A} (a : A) : B A := fun tr => (Returned a, tr).

Definition throw {A} (f : failure) : B A := fun tr => (Threw f, tr).

Definition bind {A C} (m : B A) (k : A -> B C) : B C :=
  fun tr =>
    match m tr with
    | (Returned a, tr') => k a tr'
    | (Threw f, tr') => (Threw f, tr')
    end.

Notation "x <- m ;; k" := (bind m (fun x => k))
  (at level 61, m at next level, right associativity).
Notation "m ;;; k" := (bind m (fun _ => k))
  (at level 61, right associativity).

(** [try { ... } catch { ... }]: the outcome as a value. *)
Definition attempt {A} (m : B A) : B (Outcome A) :=
  fun tr => let (r, tr') := m tr in (Returned r, tr').

(** A value or an error that comes from the host or the library. *)
Definition lift {A} (r : Result A) : B A :=
  match r with
  | Ok a => ret a
  | Err e => throw (Thrown e)
  end.

(** Ask the host: the action is recorded, the answer depends on what was
    asked before. *)
Definition ask {A} (a : Action) (answer : list Action -> Result A) : B A :=
  fun tr =>
    match answer tr with
    | Ok x => (Returned x, tr ++ [a])
    | Err e => (Threw (Thrown e), tr ++ [a])
    end.

Definition console_log (line : LogLine) : B unit :=
  fun tr => (Returned tt, tr ++ [Logged line]).

(** *** ProgressTracker *)

Record ProgressTracker : Type := { totalSteps : nat; currentStep : nat }.

(** [new ProgressTracker(totalSteps)] *)
Definition newProgressTracker (total : nat) : ProgressTracker :=
  {| totalSteps := total; currentStep := 0 |}.

(** [if (detail)]: a missing detail and the empty string are falsy. *)
Definition given (detail : option Detail) : option Detail :=
  match detail with
  | Some (Text []) | None => None
  | Some d => Some d
  end.

(** [progress.start(title, detail)]; the tracker after the call. *)
Definition progress_start (title : string) (detail : option Detail)
  (progress : ProgressTracker) : B ProgressTracker :=
  let progress' := {| totalSteps := totalSteps progress;
                      currentStep := currentStep progress + 1 |} in
  console_log (StepLine (currentStep progress') (totalSteps progress')
                        title) ;;;
  match given detail with
  | Some d => console_log (DetailLine d) ;;; ret progress'
  | None => ret progress'
  end.

(** [progress.done(startedAt, detail)] *)
Definition progress_done (detail : option Detail) : B unit :=
  console_log (DoneLine (given detail)).

(** [progress.summary()] *)
Definition progress_summary : B unit := console_log CompleteLine.

(** *** buildPackedDawg *)

(** [mod.Trie ?? mod.default?.Trie ?? mod.default], [None] when the
    result is undefined.  A default export that is an object without
    [Trie] is returned as it is, and [new] throws on it. *)
Definition resolveTrie (ns : TrieModule) : option TrieClass :=
  match Trie ns with
  | Some c => Some c
  | None =>
      match default ns with
      | Some (DefaultObject (Some c)) => Some c
      | Some (DefaultObject None) =>
          Some {| instance := unit;
                  construct := Err (HostError "Trie is not a constructor");
                  addWords := None;
                  insert := None;
                  pack := fun _ => Ok None |}
      | Some (DefaultClass c) => Some c
      | None => None
      end
  end.

Section Script.

Context {number : Type} `{BuildEnv number}.

Definition import (specifier : string) : B TrieModule :=
  ask (Imported specifier) (fun tr => import_module tr specifier).

Definition loadTrieCtor : B TrieClass :=
  first <- attempt (import "dawg-lookup/lib/trie") ;;
  ns <- match first with
        | Returned ns => ret ns
        | Threw _ => import "dawg-lookup/lib/trie.js"
        end ;;
  match resolveTrie ns with
  | Some cls => ret cls
  | None => throw TrieCtorUnresolved
  end.

(** [for (const word of words) { trie.insert(word); }] *)
Fixpoint insert_each {T} (insert : jsstring -> T -> Result T)
  (words : list jsstring) (trie : T) : Result T :=
  match words with
  | [] => Ok trie
  | word :: rest =>
      match insert word trie with
      | Ok trie' => insert_each insert rest trie'
      | Err e => Err e
      end
  end.

Definition buildPackedDawg (words : list jsstring) : B jsstring :=
  cls <- loadTrieCtor ;;
  trie <- lift (construct cls) ;;
  trie <- match addWords cls with
          | Some addWords => lift (addWords words trie)
          | None =>
              match insert cls with
              | Some insert => lift (insert_each insert words trie)
              | None => throw NoInsertMethod
              end
          end ;;
  packed <- lift (pack cls trie) ;;
  match packed with
  | Some packed => ret packed
  | None => throw PackedNotString
  end.

(** *** readJson, writeMeta *)

Definition readFile (p : Path) : B jsstring :=
  ask (Read p) (fun tr => fs_readFile tr p).

Definition mkdir (p : Path) : B unit :=
  ask (MadeDir p) (fun tr => fs_mkdir tr p).

Definition writeFile (p : Path) (content : jsstring) : B unit :=
  ask (Wrote p content) (fun tr => fs_writeFile tr p content).

Definition copyFile (src dst : Path) : B unit :=
  ask (Copied src dst) (fun tr => fs_copyFile tr src dst).

(** [fs.access(p)] inside [try { ... } catch { }]: whether it resolves. *)
Definition access (p : Path) : B bool :=
  fun tr => (Returned (fs_access tr p), tr ++ [Accessed p]).

(** [error && error.code === "ENOENT"] *)
Definition is_ENOENT (f : failure) : bool :=
  match f with
  | Thrown e =>
      match error_code e with
      | Some code => String.eqb code "ENOENT"
      | None => false
      end
  | _ => false
  end.

Definition readJson (pathname : Path) : B (Json number) :=
  r <- attempt (raw <- readFile pathname ;; lift (JSON_parse raw)) ;;
  match r with
  | Returned v => ret v
  | Threw f => if is_ENOENT f then ret (JObject []) else throw f
  end.

(** [obj[key]] on the properties of an object. *)
Fixpoint get_prop (key : jsstring) (props : list (jsstring * Json number))
  : option (Json number) :=
  match props with
  | [] => None
  | (k, v) :: rest => if str_eqb k key then Some v else get_prop key rest
  end.

(** [obj[key] = value] for a key that is not an array index: the value
    of an existing property is replaced where it is, a new property
    comes last. *)
Fixpoint set_prop (key : jsstring) (value : Json number)
  (props : list (jsstring * Json number)) : list (jsstring * Json number) :=
  match props with
  | [] => [(key, value)]
  | (k, v) :: rest =>
      if str_eqb k key then (key, value) :: rest
      else (k, v) :: set_prop key value rest
  end.

(** The properties ["0"], ["1"], ... of an array or of a string. *)
Fixpoint indexed (i : nat) (items : list (Json number))
  : list (jsstring * Json number) :=
  match items with
  | [] => []
  | item :: rest => (decimal (N.of_nat i), item) :: indexed (S i) rest
  end.

(** What [{ ...value }] copies: the own enumerable properties. *)
Definition spread (value : Json number) : list (jsstring * Json number) :=
  match value with
  | JObject props => props
  | JArray items => indexed 0 items
  | JString s => indexed 0 (map (fun c => JString [c]) s)
  | _ => []
  end.

(** [meta.artifacts], [undefined] being [None]; [meta] is not [null]. *)
Definition artifacts_of (meta : Json number) : option (Json number) :=
  match meta with
  | JObject props => get_prop (js "artifacts") props
  | _ => None
  end.

(** [{ ...(meta.artifacts ?? {}), dawgFile: DAWG_FILE_NAME, dawgBytes,
    dawgSha256 }] *)
Definition new_artifacts (old : option (Json number))
  (dawgBytes : N) (dawgSha256 : jsstring) : list (jsstring * Json number) :=
  set_prop (js "dawgSha256") (JString dawgSha256)
    (set_prop (js "dawgBytes") (JNumber (number_of_N dawgBytes))
       (set_prop (js "dawgFile") (JString DAWG_FILE_NAME)
          match old with
          | Some JNull | None => []
          | Some value => spread value
          end)).

(** [meta.artifacts = { ... }] in a module, which is strict code: the
    assignment throws on [null] and on a primitive value.  On an array
    it sets a property that is not an element, which [JSON.stringify]
    leaves out: the result is [meta] as [JSON.stringify] sees it. *)
Definition assign_artifacts (meta : Json number)
  (dawgBytes : N) (dawgSha256 : jsstring) : Result (Json number) :=
  match meta with
  | JObject props =>
      Ok (JObject
            (set_prop (js "artifacts")
               (JObject (new_artifacts (artifacts_of meta)
                                       dawgBytes dawgSha256))
               props))
  | JArray items => Ok (JArray items)
  | JNull => Err (HostError "TypeError: Cannot read properties of null")
  | _ => Err (HostError "TypeError: Cannot create property 'artifacts'")
  end.

(** The metadata that the assignment makes of the empty object. *)
Definition fresh_metadata (dawgBytes : N) (dawgSha256 : jsstring)
  : Json number :=
  JObject
    [(js "artifacts",
      JObject [(js "dawgFile", JString DAWG_FILE_NAME);
               (js "dawgBytes", JNumber (number_of_N dawgBytes));
               (js "dawgSha256", JString dawgSha256)])].

Definition writeMeta (dawgBytes : N) (dawgSha256 : jsstring) : B unit :=
  meta <- readJson META_PATH ;;
  meta <- lift (assign_artifacts meta dawgBytes dawgSha256) ;;
  mkdir (dirname META_PATH) ;;;
  writeFile META_PATH (JSON_stringify meta ++ [10%N]).

(** *** copyDawgLookupLicense *)

(** The loop over the candidates: the first one that [fs.access]
    accepts. *)
Fixpoint first_accessible (candidates : list Path) : B (option Path) :=
  match candidates with
  | [] => ret None
  | candidate :: rest =>
      found <- access candidate ;;
      if found then ret (Some candidate) else first_accessible rest
  end.

Definition copyDawgLookupLicense : B unit :=
  source <- first_accessible candidates ;;
  match source with
  | None => throw LicenseNotFound
  | Some source =>
      mkdir LICENSES_DIR ;;;
      copyFile source DAWG_LICENSE_DEST
  end.

(** *** buildDawgFromWordsFile *)

(** [Buffer.byteLength(s, "utf8")]: one byte below U+0080, two below
    U+0800, four for a surrogate pair, three otherwise (a lone surrogate
    is encoded as U+FFFD). *)
Fixpoint byteLength (s : jsstring) : N :=
  match s with
  | [] => 0
  | c :: rest =>
      if N.ltb c 128 then 1 + byteLength rest
      else if N.ltb c 2048 then 2 + byteLength rest
      else
        match rest with
        | d :: rest' =>
            if N.leb 55296 c && N.leb c 56319
               && N.leb 56320 d && N.leb d 57343
            then 4 + byteLength rest'
            else 3 + byteLength rest
        | [] => 3
        end
  end%N.

Record BuildResult : Type := {
  wordsCount : nat;
  dawgBytes : N;
  dawgSha256 : jsstring
}.

Definition buildDawgFromWordsFile : B BuildResult :=
  let progress := newProgressTracker 5 in
  progress <- progress_start "Read + validate words.txt" None progress ;;
  wordsText <- readFile WORDS_PATH ;;
  let words := parseWordsFile wordsText in
  lift (BuildDawg.assertSortedUnique words) ;;;
  progress_done
    (Some (Text (decimal (N.of_nat (length words)) ++ js " words"))) ;;;
  progress <- progress_start "Build packed DAWG"
    (Some (Text (js "This is CPU-bound and can take a while on larger dictionaries.")))
    progress ;;
  packed <- buildPackedDawg words ;;
  progress_done
    (Some (Text (decimal (byteLength packed) ++ js " bytes packed"))) ;;;
  progress <- progress_start "Write dict.dawg artifact" None progress ;;
  mkdir (dirname OUT_PATH) ;;;
  writeFile OUT_PATH packed ;;;
  progress_done (Some (PathName OUT_PATH)) ;;;
  let dawgBytes := byteLength packed in
  let dawgSha256 := sha256Hex packed in
  progress <- progress_start "Copy DAWG library license" None progress ;;
  copyDawgLookupLicense ;;;
  progress_done (Some (PathName DAWG_LICENSE_DEST)) ;;;
  progress <- progress_start "Update dict.meta.json" None progress ;;
  writeMeta dawgBytes dawgSha256 ;;;
  progress_done (Some (PathName META_PATH)) ;;;
  progress_summary ;;;
  ret {| wordsCount := length words;
         dawgBytes := dawgBytes;
         dawgSha256 := dawgSha256 |}.

End Script.

(** What the script has changed on disk: the calls of [mkdir],
    [writeFile] and [copyFile] of a trace, in order. *)
Definition is_write (a : Action) : bool :=
  match a with
  | MadeDir _ | Wrote _ _ | Copied _ _ => true
  | _ => false
  end.

Definition writes (tr : list Action) : list Action := filter is_write tr.

(** The step lines of a trace, in order. *)
Fixpoint step_lines (tr : list Action) : list (nat * nat) :=
  match tr with
  | [] => []
  | Logged (StepLine current total _) :: rest =>
      (current, total) :: step_lines rest
  | _ :: rest => step_lines rest
  end.

(** What a function adds to the trace changes nothing on disk and prints
    no step line. *)
Definition silent (added : list Action) : Prop :=
  writes added = [] /\ step_lines added = [].

End BuildScript.

(** ** src/dict.ts: complete loads *)

Module DictRuns.

Import Dict.

(** The number of [fetch] calls that the body of a load has made when it
    is suspended at stage [s]; at most two when it is finished. *)
Definition issued (s : Stage) : nat :=
  match s with
  | AwaitMetaFetch _ | AwaitMetaJson _ => 1
  | _ => 2
  end.

(** The events of one call of [loadDictionary(metaUrl)] whose load goes
    through: both responses are ok, with some status, the metadata is
    [meta], the artifact text is [packed], and the library is imported
    with the outcomes [imports] (one import, or a failed one and the
    fallback). *)
Definition loadEvents (p : PromiseId) (metaUrl : jsstring)
  (metaStatus : N) (meta : DictMeta) (dawgStatus : N) (packed : jsstring)
  (imports : list (Result ModuleNS)) : list Event :=
  [Call (Some metaUrl);
   Deliver p (Settled_Response (Ok {| ok := true; status := metaStatus |}));
   Deliver p (Settled_Json (Ok meta));
   Deliver p (Settled_Response (Ok {| ok := true; status := dawgStatus |}));
   Deliver p (Settled_Text (Ok packed))]
  ++ map (fun r => Deliver p (Settled_Import r)) imports
  ++ [Deliver p Settled_Ctor; Resume p].

End DictRuns.

(** ** A host and tries to run the code on *)

(** [toUpperCase] on one code unit of ASCII text. *)
Definition upper_unit (c : N) : N :=
  if N.leb 97 c && N.leb c 122 then (c - 32)%N else c.

(** A host without [window] (Node, as in the tests) whose [toUpperCase] is
    that of JavaScript on ASCII text; other code units are left as they
    are. *)
Definition nodeAsciiHost : Host := {|
  toUpperCase := map upper_unit;
  window_location_href := None;
  newURL := fun _ _ => Err (HostError "Invalid URL")
|}.

(** Modelled from the spec: the automaton itself is built, packed and
    traversed by the dawg-lookup library, which is not in the
    repository.  [wordsTrie W] answers as the spec says the index of the
    word list [W] does when it is given the string as it is: [isWord(s)]
    is "s is in W", [isPrefix(s)] is "some word of W starts with s", so
    that the empty string is a prefix iff [W] is not empty. *)
Definition wordsTrie (W : list jsstring) : TrieLike.t := {|
  TrieLike.isWord := fun s => Ok (existsb (str_eqb s) W);
  TrieLike.isPrefix := Some (fun s => Ok (existsb (starts_with s) W));
  TrieLike.hasPrefix := None;
  TrieLike.completions := None
|}.



(** The word list of the spec's scenario. *)
Definition scenarioWords : list jsstring :=
  [js "A"; js "AN"; js "AND"; js "ANT"].

(** The namespace of a module that exports the class [PTrie].  How the
    constructor decodes the packed text is the library's business: here
    every packed text gives the trie of [W]. *)
Definition ptrieModule (W : list jsstring) : Dict.ModuleNS := {|
  Dict.PTrie := Some (fun _ => Ok (wordsTrie W));
  Dict.default := None
|}.

(** A module that exports nothing the source looks for. *)
Definition emptyModule : Dict.ModuleNS := {|
  Dict.PTrie := None;
  Dict.default := None
|}.

Definition response (ok : bool) (status : N) : Dict.Input :=
  Dict.Settled_Response (Ok {| Dict.ok := ok; Dict.status := status |}).

Definition noArtifacts : Dict.Input :=
  Dict.Settled_Json (Ok {| Dict.artifacts := None |}).

(** One call of [loadDictionary()] and the events of its load up to the
    import of the library. *)
Definition loadUpToImport : list Dict.Event :=
  [Dict.Call None;
   Dict.Deliver 0 (response true 200);
   Dict.Deliver 0 noArtifacts;
   Dict.Deliver 0 (response true 200);
   Dict.Deliver 0 (Dict.Settled_Text (Ok (js "packed")))].

(** A complete successful load of the trie of [W]. *)
Definition successfulLoad (W : list jsstring) : list Dict.Event :=
  loadUpToImport ++
  [Dict.Deliver 0 (Dict.Settled_Import (Ok (ptrieModule W)));
   Dict.Deliver 0 Dict.Settled_Ctor;
   Dict.Resume 0].


(** A call of [loadDictionary()] whose metadata is answered with status
    404, up to the resumption of the caller. *)
Definition failedLoad : list Dict.Event :=
  [Dict.Call None; Dict.Deliver 0 (response false 404); Dict.Resume 0].

(** The world a run ends in; [start] when an event is not enabled. *)
Definition world_after (evs : list Dict.Event) : Dict.World :=
  match Dict.run (H := nodeAsciiHost) Dict.start evs with
  | Some (w, _) => w
  | None => Dict.start
  end.

(** The module variables once the dictionary of the scenario is loaded. *)
Definition scenarioVars : Dict.Vars :=
  Dict.vars (world_after (successfulLoad scenarioWords)).

(** ** A host to run the build on *)

(** A class [Trie] that keeps its words in a list and packs them one per
    line. *)
Definition listTrieClass : BuildScript.TrieClass := {|
  BuildScript.instance := list jsstring;
  BuildScript.construct := Ok [];
  BuildScript.addWords := Some (fun words trie => Ok (trie ++ words));
  BuildScript.insert := Some (fun word trie => Ok (trie ++ [word]));
  BuildScript.pack := fun trie => Ok (Some (BuildScript.join_lines trie))
|}.

(** A host whose words.txt holds [wordsText], whose dict.meta.json holds
    [metaText] or does not exist, which has the license of the library
    when [license] is set, and on which every write succeeds.  Its
    numbers are those of [N]; its hash and its JSON functions are
    stand-ins (the parser accepts nothing). *)
Definition sampleEnv (wordsText : jsstring) (metaText : option jsstring)
  (license : bool) : BuildScript.BuildEnv N := {|
  BuildScript.number_of_N := fun n => n;
  BuildScript.fs_readFile := fun _ p =>
    match p with
    | [name] =>
        if String.eqb name "words.txt" then Ok wordsText
        else
          match metaText with
          | Some raw =>
              if String.eqb name "dict.meta.json" then Ok raw
              else Err (HostError "ENOENT")
          | None => Err (HostError "ENOENT")
          end
    | _ => Err (HostError "ENOENT")
    end;
  BuildScript.fs_access := fun _ _ => license;
  BuildScript.fs_mkdir := fun _ _ => Ok tt;
  BuildScript.fs_writeFile := fun _ _ _ => Ok tt;
  BuildScript.fs_copyFile := fun _ _ _ => Ok tt;
  BuildScript.error_code := fun e =>
    match e with
    | HostError what => Some what
    | _ => None
    end;
  BuildScript.import_module := fun _ _ =>
    Ok {| BuildScript.Trie := Some listTrieClass;
          BuildScript.default := None |};
  BuildScript.sha256Hex := fun s => js "sha256 of " ++ s;
  BuildScript.JSON_parse := fun _ => Err (HostError "SyntaxError");
  BuildScript.JSON_stringify := fun _ => js "{ ... }"
|}.

(** The words.txt of the test of the validator, with CR LF line ends. *)
Definition sampleWordsText : jsstring :=
  BuildScript.lines_ended_by [13%N; 10%N] [js "A"; js "I"; js "QI"].

(** A words.txt that is not sorted. *)
Definition unsortedWordsText : jsstring :=
  BuildScript.join_lines [js "B"; js "A"].

(** The host of a first build, with and without the license. *)
Definition firstBuildEnv : BuildScript.BuildEnv N :=
  sampleEnv sampleWordsText None true.

Definition noLicenseEnv : BuildScript.BuildEnv N :=
  sampleEnv sampleWordsText None false.

(** A host whose words.txt is not sorted, and one whose metadata is not
    JSON. *)
Definition unsortedEnv : BuildScript.BuildEnv N :=
  sampleEnv unsortedWordsText None true.

Definition corruptMetaEnv : BuildScript.BuildEnv N :=
  sampleEnv sampleWordsText (Some (js "not json")) true.

(** The summary that the first build returns. *)
Definition firstBuildResult : BuildScript.BuildResult := {|
  BuildScript.wordsCount := 3;
  BuildScript.dawgBytes := 6;
  BuildScript.dawgSha256 :=
    js "sha256 of " ++ BuildScript.join_lines [js "A"; js "I"; js "QI"]
|}.

(** The trace of the build on a host. *)
Definition buildTrace (env : BuildScript.BuildEnv N)
  : list BuildScript.Action :=
  snd (BuildScript.buildDawgFromWordsFile (H := env) []).

(** * Properties *)

(** ** The order on strings *)

Lemma str_ltb_irrefl (a : jsstring) : str_ltb a a = false.
Proof.
  induction a as [|x a IH]; simpl; [reflexivity|].
  rewrite N.ltb_irrefl, N.eqb_refl. exact IH.
Qed.

Lemma str_ltb_trans (a b c : jsstring) :
  str_ltb a b = true -> str_ltb b c = true -> str_ltb a c = true.
Proof.
  revert b c.
  induction a as [|x a IH]; intros [|y b] [|z c]; simpl; try congruence.
  destruct (N.ltb_spec x y) as [Hxy|Hxy].
  - intros _.
    destruct (N.ltb_spec y z) as [Hyz|Hyz].
    + intros _. destruct (N.ltb_spec x z); [reflexivity|lia].
    + destruct (N.eqb_spec y z) as [->|]; [|congruence].
      intros _. destruct (N.ltb_spec x z); [reflexivity|lia].
  - destruct (N.eqb_spec x y) as [->|]; [|congruence].
    intros Hab.
    destruct (N.ltb_spec y z) as [Hyz|Hyz]; [reflexivity|].
    destruct (N.eqb_spec y z) as [->|]; [|congruence].
    apply IH. exact Hab.
Qed.

Lemma str_geb_ltb (a b : jsstring) :
  str_geb a b = true <-> str_ltb a b <> true.
Proof.
  unfold str_geb. destruct (str_ltb a b); simpl; split; congruence.
Qed.

(** ** scripts/build_dawg.mjs *)

Section Validator.

Import BuildDawg.

(** The loop accepts iff every pair it looks at is increasing. *)
Lemma for_loop_ok (words : list jsstring) (n i : nat) :
  for_loop words i n = Ok tt <->
  forall j, i <= j < i + n ->
    str_ltb (at_index words (j - 1)) (at_index words j) = true.
Proof.
  revert i. induction n as [|n IH]; intros i; simpl.
  - split; [intros _ j Hj; lia | reflexivity].
  - unfold str_geb.
    destruct (str_ltb (at_index words (i - 1)) (at_index words i)) eqn:Hlt;
      simpl.
    + rewrite IH. split; intros Hall j Hj.
      * destruct (Nat.eq_dec j i) as [->|Hne]; [exact Hlt|].
        apply Hall. lia.
      * apply Hall. lia.
    + split; [discriminate|].
      intros Hall. specialize (Hall i). rewrite Hlt in Hall.
      assert (false = true) by (apply Hall; lia). discriminate.
Qed.

(** When the loop throws, it throws at the first pair that is not
    increasing, and the error carries that pair and its two indices. *)
Lemma for_loop_err (words : list jsstring) (n i : nat) (e : error) :
  for_loop words i n = Err e ->
  exists j,
    i <= j < i + n /\
    str_geb (at_index words (j - 1)) (at_index words j) = true /\
    (forall k, i <= k < j ->
       str_ltb (at_index words (k - 1)) (at_index words k) = true) /\
    e = SortedUniqueError (j - 1) (at_index words (j - 1))
                          j (at_index words j).
Proof.
  revert i. induction n as [|n IH]; intros i; simpl; [discriminate|].
  destruct (str_geb (at_index words (i - 1)) (at_index words i)) eqn:Hge.
  - intros [= <-]. exists i.
    split; [lia|]. split; [exact Hge|]. split; [|reflexivity].
    intros k Hk. lia.
  - intros Hrec. destruct (IH _ Hrec) as (j & Hj & Hgej & Hbefore & ->).
    exists j.
    split; [lia|]. split; [exact Hgej|]. split; [|reflexivity].
    intros k Hk. destruct (Nat.eq_dec k i) as [->|Hne].
    + unfold str_geb in Hge.
      destruct (str_ltb (at_index words (i - 1)) (at_index words i));
        [reflexivity|discriminate].
    + apply Hbefore. lia.
Qed.

Lemma assertSortedUnique_ok (words : list jsstring) :
  assertSortedUnique words = Ok tt <-> strictly_increasing words.
Proof.
  unfold assertSortedUnique, strictly_increasing.
  rewrite for_loop_ok. split; intros Hall i Hi; apply Hall; lia.
Qed.

Lemma assertSortedUnique_throws (words : list jsstring) :
  (exists e, assertSortedUnique words = Err e) <->
  ~ strictly_increasing words.
Proof.
  rewrite <- assertSortedUnique_ok.
  destruct (assertSortedUnique words) as [[]|e].
  - split; [intros [e He]; discriminate | intros Hn; now elim Hn].
  - split; [intros _; discriminate | intros _; now exists e].
Qed.

(** Adjacent pairs in order put the whole array in order. *)
Lemma strictly_increasing_pairwise (words : list jsstring) :
  strictly_increasing words ->
  forall i j, i < j < length words ->
    str_ltb (at_index words i) (at_index words j) = true.
Proof.
  intros Hadj i j [Hij Hj].
  induction j as [|j IH]; [lia|].
  assert (Hstep : str_ltb (at_index words j) (at_index words (S j)) = true).
  { specialize (Hadj (S j)). simpl in Hadj.
    rewrite Nat.sub_0_r in Hadj. apply Hadj. lia. }
  destruct (Nat.eq_dec i j) as [->|Hne]; [exact Hstep|].
  apply str_ltb_trans with (b := at_index words j); [|exact Hstep].
  apply IH; lia.
Qed.

(** C6: [assertSortedUnique] accepts a word sequence iff it is strictly
    increasing in the order of [<] on strings; it throws exactly when some
    adjacent pair has [words[i - 1] >= words[i]], and the message of the
    error it throws names the two indices of such a pair and its two
    values. *)
Theorem assertSortedUnique_accepts_iff_strictly_increasing
  (words : list jsstring) :
  (assertSortedUnique words = Ok tt <-> strictly_increasing words) /\
  ((exists e, assertSortedUnique words = Err e) <->
   exists i, 1 <= i < length words /\
     str_geb (at_index words (i - 1)) (at_index words i) = true) /\
  (forall e, assertSortedUnique words = Err e ->
   exists i, 1 <= i < length words /\
     str_geb (at_index words (i - 1)) (at_index words i) = true /\
     e = SortedUniqueError (i - 1) (at_index words (i - 1))
                           i (at_index words i) /\
     message e =
       js "words.txt must be strictly sorted and unique. Index "
       ++ decimal (N.of_nat (i - 1)) ++ js "='" ++ at_index words (i - 1)
       ++ js "', "
       ++ decimal (N.of_nat i) ++ js "='" ++ at_index words i ++ js "'").
Proof.
  assert (Hthrown : forall e, assertSortedUnique words = Err e ->
            exists i, 1 <= i < length words /\
              str_geb (at_index words (i - 1)) (at_index words i) = true /\
              e = SortedUniqueError (i - 1) (at_index words (i - 1))
                                    i (at_index words i)).
  { intros e He. unfold assertSortedUnique in He.
    destruct (for_loop_err _ _ _ _ He) as (j & Hj & Hge & _ & ->).
    exists j. split; [lia|]. split; [exact Hge|reflexivity]. }
  split; [apply assertSortedUnique_ok|]. split.
  2:{ intros e He. destruct (Hthrown e He) as (i & Hi & Hge & ->).
      exists i. split; [exact Hi|]. split; [exact Hge|].
      split; reflexivity. }
  split.
  - intros [e He]. destruct (Hthrown e He) as (i & Hi & Hge & _).
    exists i. split; assumption.
  - intros (i & Hi & Hge). apply assertSortedUnique_throws.
    intros Hinc. apply str_geb_ltb in Hge. apply Hge, Hinc, Hi.
Qed.

(** C4, as the code has it: [assertSortedUnique] does not look at the
    characters.  A sequence with a string that uses a character outside
    A-Z is rejected exactly when it is not strictly increasing, and is
    accepted when it is. *)
Theorem assertSortedUnique_ignores_alphabet (words : list jsstring) :
  outside_alphabet words ->
  ((exists e, assertSortedUnique words = Err e) <->
   ~ strictly_increasing words) /\
  (strictly_increasing words -> assertSortedUnique words = Ok tt).
Proof.
  intros _. split.
  - apply assertSortedUnique_throws.
  - apply assertSortedUnique_ok.
Qed.

End Validator.

(** The cases of [tests/build_dawg.test.ts]. *)
Example accepts_sorted_unique :
  BuildDawg.assertSortedUnique [js "A"; js "I"; js "QI"] = Ok tt.
Proof. reflexivity. Qed.

Example rejects_duplicates :
  BuildDawg.assertSortedUnique [js "A"; js "A"; js "B"]
  = Err (SortedUniqueError 0 (js "A") 1 (js "A")) /\
  message (SortedUniqueError 0 (js "A") 1 (js "A"))
  = js "words.txt must be strictly sorted and unique. Index 0='A', 1='A'".
Proof. split; reflexivity. Qed.

Example rejects_unsorted :
  BuildDawg.assertSortedUnique [js "A"; js "CAT"; js "CAR"]
  = Err (SortedUniqueError 1 (js "CAT") 2 (js "CAR")) /\
  message (SortedUniqueError 1 (js "CAT") 2 (js "CAR"))
  = js "words.txt must be strictly sorted and unique. Index 1='CAT', 2='CAR'".
Proof. split; reflexivity. Qed.

Lemma assertSortedUnique_ignores_alphabet_witness :
  BuildDawg.outside_alphabet [js "can't"; js "co-op"] /\
  (((exists e, BuildDawg.assertSortedUnique [js "can't"; js "co-op"] = Err e)
    <-> ~ BuildDawg.strictly_increasing [js "can't"; js "co-op"]) /\
   (BuildDawg.strictly_increasing [js "can't"; js "co-op"] ->
    BuildDawg.assertSortedUnique [js "can't"; js "co-op"] = Ok tt)).
Proof.
  assert (Hout : BuildDawg.outside_alphabet [js "can't"; js "co-op"]).
  { exists (js "can't"). split; [left; reflexivity | reflexivity]. }
  split; [exact Hout|].
  apply (assertSortedUnique_ignores_alphabet [js "can't"; js "co-op"]).
  exact Hout.
Defined.

(** C4 as stated fails: the lower-case sequence ["a", "b"] has characters
    outside A-Z and passes the validator. *)
Lemma assertSortedUnique_accepts_lowercase :
  ~ (forall words : list jsstring,
       BuildDawg.outside_alphabet words ->
       exists e, BuildDawg.assertSortedUnique words = Err e).
Proof.
  intros Hclaim.
  destruct (Hclaim [js "a"; js "b"]) as [e He].
  - exists (js "a"). split; [left; reflexivity | reflexivity].
  - vm_compute in He. discriminate.
Qed.

(** ** src/dict.ts: normalizeWord, isWord, isPrefix *)

Lemma strip_non_AZ_alphabet (s : jsstring) :
  forallb isAZ (Dict.strip_non_AZ s) = true.
Proof.
  induction s as [|c s IH]; simpl; [reflexivity|].
  destruct (isAZ c) eqn:Hc; simpl; [rewrite Hc|]; exact IH.
Qed.

Lemma strip_non_AZ_fixes (s : jsstring) :
  forallb isAZ s = true -> Dict.strip_non_AZ s = s.
Proof.
  induction s as [|c s IH]; simpl; [reflexivity|].
  intros Hall. apply andb_true_iff in Hall as [Hc Hs].
  rewrite Hc, (IH Hs). reflexivity.
Qed.

(** The ASCII [toUpperCase] leaves the strings over A-Z as they are. *)
Lemma nodeAsciiHost_toUpperCase_AZ (s : jsstring) :
  forallb isAZ s = true -> toUpperCase (Host := nodeAsciiHost) s = s.
Proof.
  simpl. induction s as [|c s IH]; simpl; [reflexivity|].
  intros Hall. apply andb_true_iff in Hall as [Hc Hs].
  rewrite (IH Hs). f_equal.
  unfold isAZ in Hc. apply andb_true_iff in Hc as [Hlo Hhi].
  apply N.leb_le in Hlo, Hhi. unfold upper_unit.
  destruct (N.leb_spec 97 c); [lia|reflexivity].
Qed.

(** The cases of [tests/dict.test.ts] that stay within ASCII. *)
Example normalizeWord_tests :
  Dict.normalizeWord (H := nodeAsciiHost) (js "can't") = js "CANT" /\
  Dict.normalizeWord (H := nodeAsciiHost) (js "co-op") = js "COOP" /\
  Dict.normalizeWord (H := nodeAsciiHost) (js "123") = js "".
Proof. repeat split. Qed.

Example queries_throw_before_loadDictionary :
  Dict.outcome (Dict.isWord (H := nodeAsciiHost) (js "A")
                  (Dict.after (Dict.__resetDictionaryForTests Dict.initial)))
  = Err NotLoadedError /\
  Dict.outcome (Dict.isPrefix (H := nodeAsciiHost) (js "QU")
                  (Dict.after (Dict.__resetDictionaryForTests Dict.initial)))
  = Err NotLoadedError.
Proof. split; reflexivity. Qed.

Section Queries.

Import Dict.

Context `{Host}.

(** What a call of [isWord] does, on any module variables. *)
Lemma isWord_run (word : jsstring) (v : Vars) :
  isWord word v =
  (if is_empty (normalizeWord word) then Ok false
   else match trie v with
        | None => Err NotLoadedError
        | Some t => TrieLike.isWord t (normalizeWord word)
        end,
   v).
Proof.
  unfold isWord.
  destruct (is_empty (normalizeWord word)); [reflexivity|].
  unfold bind, ensureLoaded, bind, read_trie, throw, ret, lift.
  destruct (trie v) as [t|]; [|reflexivity].
  destruct (TrieLike.isWord t (normalizeWord word)); reflexivity.
Qed.

(** What a call of [isPrefix] does, on any module variables. *)
Lemma isPrefix_run (prefix : jsstring) (v : Vars) :
  isPrefix prefix v =
  (if is_empty (normalizeWord prefix) then Ok false
   else match trie v with
        | None => Err NotLoadedError
        | Some t =>
            match TrieLike.isPrefix t, TrieLike.hasPrefix t,
                  TrieLike.completions t with
            | Some f, _, _ => f (normalizeWord prefix)
            | None, Some f, _ => f (normalizeWord prefix)
            | None, None, Some f =>
                match f (normalizeWord prefix) (Some 1%N) with
                | Ok found => Ok (Nat.ltb 0 (length found))
                | Err e => Err e
                end
            | None, None, None => Err NoPrefixLookupError
            end
        end,
   v).
Proof.
  unfold isPrefix.
  destruct (is_empty (normalizeWord prefix)); [reflexivity|].
  unfold bind, ensureLoaded, bind, read_trie, throw, ret, lift.
  destruct (trie v) as [t|]; [|reflexivity].
  destruct (TrieLike.isPrefix t) as [f|].
  { destruct (f (normalizeWord prefix)); reflexivity. }
  destruct (TrieLike.hasPrefix t) as [f|].
  { destruct (f (normalizeWord prefix)); reflexivity. }
  destruct (TrieLike.completions t) as [f|]; [|reflexivity].
  destruct (f (normalizeWord prefix) (Some 1%N)); reflexivity.
Qed.

(** C9: a call of [isWord] or of [isPrefix] leaves [trie] and
    [loadPromise] as they were, for every input and whether the call
    returns or throws. *)
Theorem queries_leave_module_variables_unchanged
  (s : jsstring) (v : Vars) :
  after (isWord s v) = v /\ after (isPrefix s v) = v.
Proof.
  rewrite isWord_run, isPrefix_run. split; reflexivity.
Qed.

(** C2, as the code has it: before a load has completed, [isWord] and
    [isPrefix] throw the "Dictionary not loaded" error on every input
    whose normalized form is not empty, and return [false] without an
    error on the inputs whose normalized form is empty. *)
Theorem queries_before_load (s : jsstring) (v : Vars) :
  trie v = None ->
  outcome (isWord s v) =
    (if is_empty (normalizeWord s) then Ok false else Err NotLoadedError) /\
  outcome (isPrefix s v) =
    (if is_empty (normalizeWord s) then Ok false else Err NotLoadedError).
Proof.
  intros Hnull. rewrite isWord_run, isPrefix_run. unfold outcome; simpl.
  rewrite Hnull. split; reflexivity.
Qed.


(** The part of the host that the next properties rely on: upper-casing
    does not change a string of letters A-Z (nor, then, the empty
    string). *)
Hypothesis toUpperCase_AZ :
  forall s, forallb isAZ s = true -> toUpperCase s = s.

Lemma normalizeWord_fixes (s : jsstring) :
  forallb isAZ s = true -> normalizeWord s = s.
Proof.
  intros Hs. unfold normalizeWord.
  rewrite (toUpperCase_AZ s Hs). apply strip_non_AZ_fixes, Hs.
Qed.

(** C10: [normalizeWord(s)] has only characters in A-Z, and normalizing
    it again gives it back. *)
Theorem normalizeWord_alphabet_idempotent (s : jsstring) :
  forallb isAZ (normalizeWord s) = true /\
  normalizeWord (normalizeWord s) = normalizeWord s.
Proof.
  assert (Hall : forallb isAZ (normalizeWord s) = true)
    by apply strip_non_AZ_alphabet.
  split; [exact Hall|]. apply normalizeWord_fixes, Hall.
Qed.

(** C1, as the code has it: [isPrefix("")] returns [false] whatever the
    dictionary, loaded or not, and so does [isPrefix] on every input
    whose normalized form is empty; the trie is not consulted. *)
Theorem isPrefix_empty_returns_false (v : Vars) :
  outcome (isPrefix (js "") v) = Ok false /\
  forall s, normalizeWord s = [] -> outcome (isPrefix s v) = Ok false.
Proof.
  assert (Hgen : forall s, normalizeWord s = [] ->
                           outcome (isPrefix s v) = Ok false).
  { intros s Hs. rewrite isPrefix_run, Hs. reflexivity. }
  split; [|exact Hgen].
  apply Hgen. apply (normalizeWord_fixes []). reflexivity.
Qed.

(** C5, as the code has it: [isWord] normalizes its input itself.  On a
    loaded dictionary [isWord(s)] is [false] when [normalizeWord(s)] is
    empty and otherwise does what the trie does on [normalizeWord(s)];
    the trie is asked, and asked about [s] as given, exactly when [s] is
    a non-empty string of letters A-Z. *)
Theorem isWord_normalizes_its_input
  (s : jsstring) (v : Vars) (t : TrieLike.t) :
  trie v = Some t ->
  outcome (isWord s v) =
    (if is_empty (normalizeWord s) then Ok false
     else TrieLike.isWord t (normalizeWord s)) /\
  ((is_empty (normalizeWord s) = false /\ normalizeWord s = s) <->
   (s <> [] /\ forallb isAZ s = true)) /\
  (forallb isAZ s = true -> s <> [] ->
   outcome (isWord s v) = TrieLike.isWord t s).
Proof.
  intros Hloaded. rewrite isWord_run. unfold outcome; simpl.
  rewrite Hloaded. split; [reflexivity|]. split.
  - split.
    + intros [Hne Hfixed]. split.
      * intros ->. rewrite Hfixed in Hne. discriminate.
      * rewrite <- Hfixed. apply strip_non_AZ_alphabet.
    + intros [Hne Hs]. rewrite (normalizeWord_fixes s Hs).
      split; [destruct s; [congruence|reflexivity]|reflexivity].
  - intros Hs Hne. rewrite (normalizeWord_fixes s Hs).
    destruct s; [congruence|reflexivity].
Qed.

End Queries.

(** The run [successfulLoad W] ends with the trie of [W] loaded and no
    load pending. *)
Lemma successfulLoad_loads (W : list jsstring) :
  Dict.vars (world_after (successfulLoad W)) = Dict.loadedWith (wordsTrie W).
Proof. reflexivity. Qed.

Lemma queries_before_load_witness :
  Dict.trie Dict.initial = None /\
  (Dict.outcome (Dict.isWord (H := nodeAsciiHost) (js "QU") Dict.initial)
     = Err NotLoadedError /\
   Dict.outcome (Dict.isPrefix (H := nodeAsciiHost) (js "QU") Dict.initial)
     = Err NotLoadedError).
Proof.
  split; [reflexivity|].
  apply (@queries_before_load nodeAsciiHost (js "QU") Dict.initial).
  reflexivity.
Defined.

(** C2 as stated fails: before any load, [isWord("123")] and
    [isPrefix("")] return [false] instead of throwing. *)
Lemma queries_before_load_empty_normal_form :
  Dict.outcome (Dict.isWord (H := nodeAsciiHost) (js "123") Dict.initial)
    <> Err NotLoadedError /\
  Dict.outcome (Dict.isPrefix (H := nodeAsciiHost) (js "") Dict.initial)
    <> Err NotLoadedError.
Proof. split; vm_compute; discriminate. Qed.



Lemma normalizeWord_alphabet_idempotent_witness :
  (forall s, forallb isAZ s = true ->
             toUpperCase (Host := nodeAsciiHost) s = s) /\
  (forallb isAZ (Dict.normalizeWord (H := nodeAsciiHost) (js "can't")) = true
   /\ Dict.normalizeWord (H := nodeAsciiHost)
        (Dict.normalizeWord (H := nodeAsciiHost) (js "can't"))
      = Dict.normalizeWord (H := nodeAsciiHost) (js "can't")).
Proof.
  split; [exact nodeAsciiHost_toUpperCase_AZ|].
  apply (@normalizeWord_alphabet_idempotent nodeAsciiHost
           nodeAsciiHost_toUpperCase_AZ (js "can't")).
Defined.

Lemma isPrefix_empty_returns_false_witness :
  (forall s, forallb isAZ s = true ->
             toUpperCase (Host := nodeAsciiHost) s = s) /\
  (Dict.outcome (Dict.isPrefix (H := nodeAsciiHost) (js "") scenarioVars)
     = Ok false /\
   forall s, Dict.normalizeWord (H := nodeAsciiHost) s = [] ->
             Dict.outcome (Dict.isPrefix (H := nodeAsciiHost) s scenarioVars)
             = Ok false).
Proof.
  split; [exact nodeAsciiHost_toUpperCase_AZ|].
  apply (@isPrefix_empty_returns_false nodeAsciiHost
           nodeAsciiHost_toUpperCase_AZ scenarioVars).
Defined.

(** C1 as stated fails: with the dictionary of ["A","AN","AND","ANT"]
    loaded, [isPrefix("")] is not [true], although the word list is not
    empty and the trie itself has the empty string as a prefix. *)
Lemma isPrefix_empty_scenario_not_true :
  Dict.trie scenarioVars = Some (wordsTrie scenarioWords) /\
  TrieLike.isPrefix (wordsTrie scenarioWords)
    = Some (fun s => Ok (existsb (starts_with s) scenarioWords)) /\
  existsb (starts_with (js "")) scenarioWords = true /\
  Dict.outcome (Dict.isPrefix (H := nodeAsciiHost) (js "") scenarioVars)
    <> Ok true.
Proof.
  repeat split. vm_compute. discriminate.
Qed.

Lemma isWord_normalizes_its_input_witness :
  (forall s, forallb isAZ s = true ->
             toUpperCase (Host := nodeAsciiHost) s = s) /\
  Dict.trie scenarioVars = Some (wordsTrie scenarioWords) /\
  (Dict.outcome (Dict.isWord (H := nodeAsciiHost) (js "AND") scenarioVars)
   = Ok true /\
   ((Dict.is_empty (Dict.normalizeWord (H := nodeAsciiHost) (js "AND"))
     = false /\
     Dict.normalizeWord (H := nodeAsciiHost) (js "AND") = js "AND") <->
    (js "AND" <> [] /\ forallb isAZ (js "AND") = true)) /\
   (forallb isAZ (js "AND") = true -> js "AND" <> [] ->
    Dict.outcome (Dict.isWord (H := nodeAsciiHost) (js "AND") scenarioVars)
    = TrieLike.isWord (wordsTrie scenarioWords) (js "AND"))).
Proof.
  split; [exact nodeAsciiHost_toUpperCase_AZ|].
  split; [reflexivity|].
  apply (@isWord_normalizes_its_input nodeAsciiHost
           nodeAsciiHost_toUpperCase_AZ (js "AND") scenarioVars
           (wordsTrie scenarioWords)).
  reflexivity.
Defined.

(** C5 as stated fails: [isWord("and")] is [true] on the dictionary of
    ["A","AN","AND","ANT"], while the trie given "and" as it is answers
    [false]: the query has gone through [normalizeWord]. *)
Lemma isWord_does_normalize :
  ~ (forall (t : TrieLike.t) (s : jsstring),
       Dict.outcome (Dict.isWord (H := nodeAsciiHost) s (Dict.loadedWith t))
       = TrieLike.isWord t s).
Proof.
  intros Hclaim.
  specialize (Hclaim (wordsTrie scenarioWords) (js "and")).
  vm_compute in Hclaim. discriminate.
Qed.

(** ** src/dict.ts: loadDictionary *)

Lemma nth_error_app_last {A} (before : list A) (t t' : A) (p : nat) :
  nth_error (before ++ [t]) p = Some t' ->
  In t' before \/ (p = length before /\ t' = t).
Proof.
  revert p. induction before as [|b before IH]; intros [|p]; simpl.
  - intros [= <-]. right. split; reflexivity.
  - destruct p; discriminate.
  - intros [= <-]. left. left. reflexivity.
  - intros Hp. destruct (IH _ Hp) as [Hin|[-> ->]].
    + left. right. exact Hin.
    + right. split; reflexivity.
Qed.

Lemma replace_at_app_last {A} (before : list A) (t t' : A) :
  Dict.replace_at (before ++ [t]) (length before) t' = before ++ [t'].
Proof.
  induction before as [|b before IH]; simpl; [reflexivity|].
  rewrite IH. reflexivity.
Qed.

Lemma nth_error_app_at_length {A} (before : list A) (t : A) :
  nth_error (before ++ [t]) (length before) = Some t.
Proof.
  induction before as [|b before IH]; simpl; [reflexivity|exact IH].
Qed.

Section Loading.

Import Dict.

Context `{Host}.

(** Case analysis on a segment of the body that has run. *)
Ltac body_cases Hstep :=
  unfold body_step in Hstep;
  repeat match type of Hstep with
         | context [match ?scrutinee with _ => _ end] =>
             destruct scrutinee eqn:?; try discriminate Hstep
         end;
  injection Hstep as <-.

(** A finished body awaits nothing. *)
Lemma body_step_done (r : Result unit) (x : Input) :
  body_step (Done r) x = None.
Proof. destruct x; reflexivity. Qed.

(** Only the segment that ends the body with success assigns [trie]. *)
Lemma body_step_assigned (s : Stage) (x : Input) (eff : Effect)
  (tr : TrieLike.t) :
  body_step s x = Some eff -> assigned eff = Some tr ->
  next eff = Done (Ok tt).
Proof.
  intros Hstep. body_cases Hstep; simpl; try discriminate; reflexivity.
Qed.

(** A segment that fails assigns nothing and fetches nothing. *)
Lemma body_step_failure (s : Stage) (x : Input) (e : error) :
  failure s x = Some e -> body_step s x = Some (reject e).
Proof.
  unfold failure. destruct (body_step s x) as [eff|] eqn:Hstep;
    [|discriminate].
  body_cases Hstep; simpl; try discriminate; intros [= <-]; reflexivity.
Qed.

Lemma idle_body_step (t : Task) (x : Input) :
  idle t -> body_step (stage t) x = None.
Proof. intros [_ [r ->]]. apply body_step_done. Qed.

Lemma single_flight_start : single_flight start.
Proof. constructor. Qed.

Lemma single_flight_step (w w' : World) (ev : Event) (out : Output) :
  single_flight w -> step w ev = Some (w', out) -> single_flight w'.
Proof.
  unfold single_flight. intros Hinv Hstep.
  destruct ev as [metaUrl | p x | p]; simpl in Hstep.
  - (* Call *)
    unfold loadDictionary in Hstep.
    destruct (trie (vars w)) as [tr|] eqn:Htrie.
    { injection Hstep as <- _. rewrite Htrie. exact Hinv. }
    destruct (loadPromise (vars w)) as [q|] eqn:Hpromise.
    { injection Hstep as <- _. rewrite Hpromise, Htrie. exact Hinv. }
    injection Hstep as <- _. simpl.
    eexists (tasks w), _. split; [reflexivity|].
    split; [reflexivity|]. split; [exact Hinv|].
    split; [reflexivity|]. right. exact Htrie.
  - (* Deliver *)
    unfold deliver in Hstep.
    destruct (nth_error (tasks w) p) as [t|] eqn:Hnth; [|discriminate].
    destruct (body_step (stage t) x) as [eff|] eqn:Hbody; [|discriminate].
    injection Hstep as <- _.
    cbn [vars tasks requests].
    match goal with
    | |- match loadPromise ?v' with _ => _ end =>
        assert (Hpromise : loadPromise v' = loadPromise (vars w))
          by (destruct (assigned eff); reflexivity);
        rewrite Hpromise
    end.
    destruct (loadPromise (vars w)) as [q|].
    + destruct Hinv as (before & t0 & Htasks & Hlen & Hidle & Howner & Htrie).
      rewrite Htasks in Hnth.
      destruct (nth_error_app_last _ _ _ _ Hnth) as [Hin|[-> ->]].
      { rewrite Forall_forall in Hidle.
        rewrite (idle_body_step t x (Hidle _ Hin)) in Hbody. discriminate. }
      exists before, {| stage := next eff; ownerWaiting := ownerWaiting t0 |}.
      split; [rewrite Htasks; apply replace_at_app_last|].
      split; [exact Hlen|]. split; [exact Hidle|].
      split; [exact Howner|]. simpl.
      destruct (assigned eff) as [tr|] eqn:Hassigned.
      * left. exact (body_step_assigned _ _ _ _ Hbody Hassigned).
      * destruct Htrie as [Hdone|Hnone]; [|right; exact Hnone].
        rewrite Hdone, body_step_done in Hbody. discriminate.
    + rewrite Forall_forall in Hinv.
      rewrite (idle_body_step t x (Hinv _ (nth_error_In _ _ Hnth))) in Hbody.
      discriminate.
  - (* Resume *)
    unfold resume in Hstep.
    destruct (nth_error (tasks w) p) as [t|] eqn:Hnth; [|discriminate].
    destruct (stage t) as [ | | | | | | |r] eqn:Hstage; try discriminate.
    destruct (ownerWaiting t) eqn:Hwaiting; [|discriminate].
    injection Hstep as <- _. simpl.
    destruct (loadPromise (vars w)) as [q|].
    + destruct Hinv as (before & t0 & Htasks & Hlen & Hidle & Howner & Htrie).
      rewrite Htasks in Hnth.
      destruct (nth_error_app_last _ _ _ _ Hnth) as [Hin|[-> ->]].
      { rewrite Forall_forall in Hidle.
        destruct (Hidle _ Hin) as [Hfalse _]. congruence. }
      rewrite Htasks, replace_at_app_last.
      apply Forall_app. split; [exact Hidle|].
      constructor; [|constructor].
      split; [reflexivity|]. exists r. reflexivity.
    + rewrite Forall_forall in Hinv.
      destruct (Hinv _ (nth_error_In _ _ Hnth)) as [Hfalse _]. congruence.
Qed.

Lemma reachable_single_flight (w : World) :
  Reachable w -> single_flight w.
Proof.
  induction 1 as [|w ev w' out _ IH Hstep].
  - apply single_flight_start.
  - exact (single_flight_step _ _ _ _ IH Hstep).
Qed.

Lemma run_reachable (evs : list Event) (w w' : World) (outs : list Output) :
  Reachable w -> run w evs = Some (w', outs) -> Reachable w'.
Proof.
  revert w outs. induction evs as [|ev evs IH]; intros w outs Hw; simpl.
  - intros [= <- _]. exact Hw.
  - destruct (step w ev) as [[w1 out]|] eqn:Hstep; [|discriminate].
    destruct (run w1 evs) as [[w2 outs']|] eqn:Hrun; [|discriminate].
    intros [= <- _].
    exact (IH _ _ (Reachable_step _ _ _ _ Hw Hstep) Hrun).
Qed.

(** While the body of a load runs, it is the load that [loadPromise]
    names, and [trie] is [null]. *)
Lemma in_flight_current (w : World) (p : PromiseId) :
  single_flight w -> in_flight w p ->
  loadPromise (vars w) = Some p /\ trie (vars w) = None /\
  exists before t,
    tasks w = before ++ [t] /\ length before = p /\ Forall idle before /\
    ownerWaiting t = true /\ forall r, stage t <> Done r.
Proof.
  unfold single_flight. intros Hinv (t & Hnth & Hrunning).
  destruct (loadPromise (vars w)) as [q|].
  - destruct Hinv as (before & t0 & Htasks & Hlen & Hidle & Howner & Htrie).
    rewrite Htasks in Hnth.
    destruct (nth_error_app_last _ _ _ _ Hnth) as [Hin|[-> ->]].
    { rewrite Forall_forall in Hidle.
      destruct (Hidle _ Hin) as [_ [r Hr]]. elim (Hrunning r Hr). }
    split; [congruence|].
    split; [destruct Htrie as [Hdone|Hnone];
            [elim (Hrunning _ Hdone)|exact Hnone]|].
    exists before, t0. repeat split; assumption.
  - rewrite Forall_forall in Hinv.
    destruct (Hinv _ (nth_error_In _ _ Hnth)) as [_ [r Hr]].
    elim (Hrunning r Hr).
Qed.

(** The three failures that the source raises itself. *)
Lemma failure_meta_not_ok (metaUrl : jsstring) (st : N) :
  failure (AwaitMetaFetch metaUrl)
          (Settled_Response (Ok {| ok := false; status := st |}))
  = Some (MetaLoadError metaUrl st).
Proof. reflexivity. Qed.

Lemma failure_data_not_ok (dawgUrl : jsstring) (st : N) :
  failure (AwaitDawgFetch dawgUrl)
          (Settled_Response (Ok {| ok := false; status := st |}))
  = Some (DataLoadError dawgUrl st).
Proof. reflexivity. Qed.

Lemma failure_ctor_unresolved (packed : jsstring) :
  resolvePTrie {| PTrie := None; default := None |}
  = Err CtorUnresolvedError /\
  failure (AwaitCtor packed (Err CtorUnresolvedError)) Settled_Ctor
  = Some CtorUnresolvedError.
Proof. split; reflexivity. Qed.

(** C8: in every world that calls of [loadDictionary] lead to, a call
    made while the body of a load is running returns that load's promise
    and changes nothing (no new load, no fetch); at most one load is
    running at a time; and once [trie] is set every call returns at once
    and changes nothing. *)
Theorem loadDictionary_single_flight (w : World) :
  Reachable w ->
  (forall p, in_flight w p ->
     forall metaUrl, step w (Call metaUrl) = Some (w, Follows p)) /\
  (forall p q, in_flight w p -> in_flight w q -> p = q) /\
  (forall metaUrl, trie (vars w) <> None ->
     step w (Call metaUrl) = Some (w, Returns)).
Proof.
  intros Hreach. pose proof (reachable_single_flight w Hreach) as Hinv.
  split; [|split].
  - intros p Hp metaUrl.
    destruct (in_flight_current w p Hinv Hp) as (Hpromise & Htrie & _).
    simpl. unfold loadDictionary. rewrite Htrie, Hpromise. reflexivity.
  - intros p q Hp Hq.
    destruct (in_flight_current w p Hinv Hp) as (Hpromise & _).
    destruct (in_flight_current w q Hinv Hq) as (Hpromise' & _).
    congruence.
  - intros metaUrl Hloaded. simpl. unfold loadDictionary.
    destruct (trie (vars w)); [reflexivity|congruence].
Qed.

(** C7: when the body of a load fails with [e] (whichever [await] it
    fails at: the metadata response is not ok, the artifact response is
    not ok, the constructor cannot be resolved, or the host rejects), the
    call that started the load rethrows [e] with [trie] still [null] and
    [loadPromise] back to [null], and the next call of [loadDictionary]
    starts a new load by fetching the metadata again. *)
Theorem load_failure_resets_loading_state
  (w : World) (p : PromiseId) (t : Task) (x : Input) (e : error) :
  Reachable w ->
  nth_error (tasks w) p = Some t ->
  failure (stage t) x = Some e ->
  exists w1 w2,
    step w (Deliver p x) = Some (w1, Silent) /\
    step w1 (Resume p) = Some (w2, Settles (Err e)) /\
    trie (vars w2) = None /\
    loadPromise (vars w2) = None /\
    requests w2 = requests w /\
    forall metaUrl, exists w3 q,
      step w2 (Call (Some metaUrl)) = Some (w3, Awaits q) /\
      loadPromise (vars w3) = Some q /\
      nth_error (tasks w3) q
        = Some {| stage := AwaitMetaFetch metaUrl; ownerWaiting := true |} /\
      requests w3 = requests w2 ++ [metaUrl].
Proof.
  intros Hreach Hnth Hfail.
  pose proof (reachable_single_flight w Hreach) as Hinv.
  pose proof (body_step_failure _ _ _ Hfail) as Hbody.
  assert (Hrunning : in_flight w p).
  { exists t. split; [exact Hnth|]. intros r Hr.
    rewrite Hr, body_step_done in Hbody. discriminate. }
  destruct (in_flight_current w p Hinv Hrunning)
    as (Hpromise & Htrie & before & t0 & Htasks & Hlen & _ & Howner & _).
  assert (Ht : t = t0).
  { rewrite Htasks, <- Hlen, nth_error_app_at_length in Hnth. congruence. }
  subst t0.
  eexists. eexists.
  split.
  { simpl. unfold deliver. rewrite Hnth, Hbody. reflexivity. }
  split.
  { simpl. unfold resume. cbn [tasks next reject goto].
    rewrite Htasks, <- Hlen, replace_at_app_last, nth_error_app_at_length.
    cbn [stage ownerWaiting]. rewrite Howner. reflexivity. }
  cbn [vars tasks requests assigned fetched reject goto after
       write_loadPromise snd trie loadPromise].
  split; [exact Htrie|]. split; [reflexivity|].
  split; [apply app_nil_r|].
  intros metaUrl. eexists. eexists.
  split.
  { simpl. unfold loadDictionary.
    cbn [vars tasks requests trie loadPromise].
    rewrite Htrie. reflexivity. }
  cbn [vars tasks requests after write_loadPromise snd trie loadPromise].
  split; [reflexivity|]. split; [apply nth_error_app_at_length|reflexivity].
Qed.

End Loading.

(** *** Runs of loadDictionary on the sample host *)

Lemma world_after_reachable (evs : list Dict.Event) :
  Dict.run (H := nodeAsciiHost) Dict.start evs <> None ->
  Dict.Reachable (H := nodeAsciiHost) (world_after evs).
Proof.
  unfold world_after. intros Hrun.
  destruct (Dict.run Dict.start evs) as [[w outs]|] eqn:Heq; [|congruence].
  exact (run_reachable evs _ _ _ Dict.Reachable_start Heq).
Qed.

(** A second call during the load joins it; nothing is fetched twice. *)
Example joining_call :
  Dict.in_flight (world_after loadUpToImport) 0 /\
  Dict.step (H := nodeAsciiHost) (world_after loadUpToImport) (Dict.Call None)
  = Some (world_after loadUpToImport, Dict.Follows 0) /\
  Dict.requests (world_after loadUpToImport)
  = [js "/dict.meta.json"; js "dict.dawg"].
Proof.
  split; [|split; reflexivity].
  eexists. split; [reflexivity|]. discriminate.
Qed.

(** A call after a successful load returns at once. *)
Example call_after_load :
  Dict.step (H := nodeAsciiHost) (world_after (successfulLoad scenarioWords))
            (Dict.Call None)
  = Some (world_after (successfulLoad scenarioWords), Dict.Returns).
Proof. reflexivity. Qed.

(** The artifact is answered with status 500: the caller gets the error
    and the module variables are as at the start. *)
Example artifact_not_ok :
  match Dict.run (H := nodeAsciiHost) Dict.start
          [Dict.Call None;
           Dict.Deliver 0 (response true 200);
           Dict.Deliver 0 noArtifacts;
           Dict.Deliver 0 (response false 500);
           Dict.Resume 0] with
  | Some (w, outs) =>
      Dict.vars w = Dict.initial /\
      last outs Dict.Silent
      = Dict.Settles (Err (DataLoadError (js "dict.dawg") 500))
  | None => False
  end.
Proof. split; reflexivity. Qed.

(** The imported module has no [PTrie]: same. *)
Example constructor_unresolved :
  match Dict.run (H := nodeAsciiHost) Dict.start
          (loadUpToImport ++
           [Dict.Deliver 0 (Dict.Settled_Import (Ok emptyModule));
            Dict.Deliver 0 Dict.Settled_Ctor;
            Dict.Resume 0]) with
  | Some (w, outs) =>
      Dict.vars w = Dict.initial /\
      last outs Dict.Silent = Dict.Settles (Err CtorUnresolvedError)
  | None => False
  end.
Proof. split; reflexivity. Qed.

Lemma loadDictionary_single_flight_witness :
  Dict.Reachable (H := nodeAsciiHost) (world_after loadUpToImport) /\
  ((forall p, Dict.in_flight (world_after loadUpToImport) p ->
      forall metaUrl,
        Dict.step (H := nodeAsciiHost) (world_after loadUpToImport)
                  (Dict.Call metaUrl)
        = Some (world_after loadUpToImport, Dict.Follows p)) /\
   (forall p q, Dict.in_flight (world_after loadUpToImport) p ->
                Dict.in_flight (world_after loadUpToImport) q -> p = q) /\
   (forall metaUrl,
      Dict.trie (Dict.vars (world_after loadUpToImport)) <> None ->
      Dict.step (H := nodeAsciiHost) (world_after loadUpToImport)
                (Dict.Call metaUrl)
      = Some (world_after loadUpToImport, Dict.Returns))).
Proof.
  assert (Hreach : Dict.Reachable (H := nodeAsciiHost)
                     (world_after loadUpToImport)).
  { apply world_after_reachable. vm_compute. discriminate. }
  split; [exact Hreach|].
  exact (@loadDictionary_single_flight nodeAsciiHost
           (world_after loadUpToImport) Hreach).
Defined.

Lemma load_failure_resets_loading_state_witness :
  Dict.Reachable (H := nodeAsciiHost) (world_after [Dict.Call None]) /\
  nth_error (Dict.tasks (world_after [Dict.Call None])) 0
  = Some {| Dict.stage := Dict.AwaitMetaFetch (js "/dict.meta.json");
            Dict.ownerWaiting := true |} /\
  Dict.failure (H := nodeAsciiHost)
    (Dict.AwaitMetaFetch (js "/dict.meta.json")) (response false 404)
  = Some (MetaLoadError (js "/dict.meta.json") 404) /\
  exists w1 w2,
    Dict.step (H := nodeAsciiHost) (world_after [Dict.Call None])
              (Dict.Deliver 0 (response false 404))
    = Some (w1, Dict.Silent) /\
    Dict.step (H := nodeAsciiHost) w1 (Dict.Resume 0)
    = Some (w2, Dict.Settles
                  (Err (MetaLoadError (js "/dict.meta.json") 404))) /\
    Dict.trie (Dict.vars w2) = None /\
    Dict.loadPromise (Dict.vars w2) = None /\
    Dict.requests w2 = Dict.requests (world_after [Dict.Call None]) /\
    forall metaUrl, exists w3 q,
      Dict.step (H := nodeAsciiHost) w2 (Dict.Call (Some metaUrl))
      = Some (w3, Dict.Awaits q) /\
      Dict.loadPromise (Dict.vars w3) = Some q /\
      nth_error (Dict.tasks w3) q
      = Some {| Dict.stage := Dict.AwaitMetaFetch metaUrl;
                Dict.ownerWaiting := true |} /\
      Dict.requests w3 = Dict.requests w2 ++ [metaUrl].
Proof.
  assert (Hreach : Dict.Reachable (H := nodeAsciiHost)
                     (world_after [Dict.Call None])).
  { apply world_after_reachable. vm_compute. discriminate. }
  split; [exact Hreach|]. split; [reflexivity|]. split; [reflexivity|].
  exact (@load_failure_resets_loading_state nodeAsciiHost
           (world_after [Dict.Call None]) 0
           {| Dict.stage := Dict.AwaitMetaFetch (js "/dict.meta.json");
              Dict.ownerWaiting := true |}
           (response false 404)
           (MetaLoadError (js "/dict.meta.json") 404)
           Hreach eq_refl eq_refl).
Defined.

(** ** scripts/build_dawg.mjs: parseWordsFile *)

Section WordsFile.

Import BuildScript.

Lemma trimStart_decompose (s : jsstring) :
  exists pre, s = pre ++ trimStart s /\ forallb isWhiteSpace pre = true.
Proof.
  induction s as [|c s (pre & Hs & Hpre)]; simpl.
  - exists []. split; reflexivity.
  - destruct (isWhiteSpace c) eqn:Hc.
    + exists (c :: pre). simpl. rewrite Hc, Hpre, <- Hs.
      split; reflexivity.
    + exists []. split; reflexivity.
Qed.

Lemma trimStart_head (s : jsstring) (c : N) (rest : jsstring) :
  trimStart s = c :: rest -> isWhiteSpace c = false.
Proof.
  induction s as [|d s IH]; simpl; [discriminate|].
  destruct (isWhiteSpace d) eqn:Hd; [exact IH|].
  intros [= <- _]. exact Hd.
Qed.

Lemma trimStart_fixed (s : jsstring) :
  (forall c rest, s = c :: rest -> isWhiteSpace c = false) ->
  trimStart s = s.
Proof.
  destruct s as [|c s]; simpl; [reflexivity|].
  intros Hhead. rewrite (Hhead c s eq_refl). reflexivity.
Qed.

Lemma trimStart_app (x y : jsstring) :
  trimStart (x ++ y) =
  if forallb isWhiteSpace x then trimStart y else trimStart x ++ y.
Proof.
  induction x as [|c x IH]; simpl; [reflexivity|].
  destruct (isWhiteSpace c); simpl; [exact IH|reflexivity].
Qed.

Lemma trimStart_all_white (x : jsstring) :
  forallb isWhiteSpace x = true -> trimStart x = [].
Proof.
  intros Hx. rewrite <- (app_nil_r x), trimStart_app, Hx. reflexivity.
Qed.

(** [trimEnd] cuts a run of white space off the end. *)
Lemma trimEnd_decompose (s : jsstring) :
  exists post, s = trimEnd s ++ post /\ forallb isWhiteSpace post = true.
Proof.
  destruct (trimStart_decompose (rev s)) as (pre & Hs & Hpre).
  exists (rev pre). split.
  - unfold trimEnd. rewrite <- rev_app_distr, <- Hs, rev_involutive.
    reflexivity.
  - rewrite forallb_forall in *. intros c Hc. apply Hpre, in_rev, Hc.
Qed.

Lemma trim_head (s : jsstring) (c : N) (rest : jsstring) :
  trim s = c :: rest -> isWhiteSpace c = false.
Proof.
  unfold trim. intros Htrim.
  destruct (trimEnd_decompose (trimStart s)) as (post & Hs & _).
  rewrite Htrim in Hs. simpl in Hs.
  exact (trimStart_head s c _ Hs).
Qed.

(** Trimming twice is trimming once. *)
Lemma trim_idempotent (s : jsstring) : trim (trim s) = trim s.
Proof.
  assert (Hstart : trimStart (trim s) = trim s).
  { apply trimStart_fixed. intros c rest. apply trim_head. }
  unfold trim at 1. rewrite Hstart.
  unfold trim, trimEnd. rewrite rev_involutive.
  f_equal. apply trimStart_fixed. intros c rest. apply trimStart_head.
Qed.

Lemma trim_In (s : jsstring) (c : N) : In c (trim s) -> In c s.
Proof.
  intros Hc.
  destruct (trimStart_decompose s) as (pre & Hs & _).
  destruct (trimEnd_decompose (trimStart s)) as (post & Hs' & _).
  rewrite Hs, Hs'. apply in_or_app. right. apply in_or_app. left.
  exact Hc.
Qed.

(** White space at the end of a line does not count. *)
Lemma trim_app_white (x : jsstring) (w : N) :
  isWhiteSpace w = true -> trim (x ++ [w]) = trim x.
Proof.
  intros Hw. unfold trim, trimEnd. rewrite trimStart_app.
  destruct (forallb isWhiteSpace x) eqn:Hx.
  - simpl. rewrite Hw, (trimStart_all_white x Hx). reflexivity.
  - rewrite rev_app_distr. simpl. rewrite Hw. reflexivity.
Qed.

Lemma split_lines_no_line_feed (s : jsstring) :
  Forall (fun line => ~ In 10%N line) (split_lines s).
Proof.
  induction s as [|c s IH]; simpl.
  - constructor; [intros []|constructor].
  - destruct (N.eqb_spec c 10) as [->|Hc].
    + constructor; [intros []|exact IH].
    + destruct (N.eqb c 13 && _); [exact IH|].
      destruct (split_lines s) as [|line lines].
      * constructor; [|constructor]. intros [Heq|[]]. congruence.
      * inversion IH as [|? ? Hline Hlines]; subst.
        constructor; [|exact Hlines].
        intros [Heq|Hin]; [congruence|exact (Hline Hin)].
Qed.

(** A string without line feed is one line. *)
Lemma split_lines_one_line (w : jsstring) :
  ~ In 10%N w -> split_lines w = [w].
Proof.
  induction w as [|c w IH]; simpl; [reflexivity|].
  intros Hno.
  destruct (N.eqb_spec c 10) as [->|Hc]; [elim Hno; left; reflexivity|].
  assert (Hnext : match w with d :: _ => N.eqb d 10 | [] => false end
                  = false).
  { destruct w as [|d w]; [reflexivity|].
    apply N.eqb_neq. intros ->. apply Hno. right. left. reflexivity. }
  rewrite Hnext, andb_false_r, IH; [reflexivity|].
  intros Hin. apply Hno. right. exact Hin.
Qed.

(** The pieces of [a + "\n" + b]: those of [a], the last one without the
    carriage return that the separator takes, then those of [b]. *)
Lemma split_lines_app_line_feed (a : jsstring) :
  exists lines last last',
    split_lines a = lines ++ [last] /\
    (last = last' \/ last = last' ++ [13%N]) /\
    forall b, split_lines (a ++ 10%N :: b)
              = lines ++ last' :: split_lines b.
Proof.
  induction a as [|c a (lines & last & last' & Ha & Hlast & Hab)].
  - exists [], [], []. split; [reflexivity|].
    split; [left; reflexivity|]. reflexivity.
  - simpl. destruct (N.eqb_spec c 10) as [->|Hc].
    { exists ([] :: lines), last, last'. rewrite Ha.
      split; [reflexivity|]. split; [exact Hlast|].
      intros b. rewrite Hab. reflexivity. }
    destruct a as [|d a].
    { (* the last character of [a] *)
      simpl. destruct (N.eqb_spec c 13) as [->|Hcr]; simpl.
      - exists [], [13%N], []. split; [reflexivity|].
        split; [right; reflexivity|]. reflexivity.
      - exists [], [c], [c]. split; [reflexivity|].
        split; [left; reflexivity|]. reflexivity. }
    cbn [app]. cbn [app] in Hab.
    destruct (N.eqb c 13 && N.eqb d 10).
    { exists lines, last, last'.
      split; [exact Ha|]. split; [exact Hlast|exact Hab]. }
    rewrite Ha. destruct lines as [|line lines].
    + exists [], (c :: last), (c :: last'). split; [reflexivity|].
      split; [destruct Hlast as [->| ->]; [left|right]; reflexivity|].
      intros b. rewrite Hab. reflexivity.
    + exists ((c :: line) :: lines), last, last'. split; [reflexivity|].
      split; [exact Hlast|].
      intros b. rewrite Hab. reflexivity.
Qed.

Lemma parseWordsFile_word_like_one (w : jsstring) :
  word_like w -> parseWordsFile w = [w].
Proof.
  intros (Hne & Htrim & Hno). unfold parseWordsFile.
  rewrite (split_lines_one_line w Hno). simpl. rewrite Htrim.
  destruct w; [congruence|reflexivity].
Qed.

(** A line feed between two texts separates their words. *)
Lemma parseWordsFile_app (a b : jsstring) :
  parseWordsFile (a ++ 10%N :: b) = parseWordsFile a ++ parseWordsFile b.
Proof.
  destruct (split_lines_app_line_feed a)
    as (lines & last & last' & Ha & Hlast & Hab).
  unfold parseWordsFile. rewrite Hab, Ha.
  rewrite !map_app, !filter_app. cbn [map filter].
  assert (Htrim : trim last = trim last').
  { destruct Hlast as [->| ->]; [reflexivity|].
    apply trim_app_white. reflexivity. }
  rewrite Htrim, <- app_assoc.
  destruct (truthy (trim last')); reflexivity.
Qed.

(** A character other than a line feed at the end of the text goes to
    the end of the last piece. *)
Lemma split_lines_snoc (a : jsstring) (c : N) :
  c <> 10%N ->
  exists lines last,
    split_lines a = lines ++ [last] /\
    split_lines (a ++ [c]) = lines ++ [last ++ [c]].
Proof.
  intros Hc. induction a as [|d a (lines & last & Ha & Hac)].
  - exists [], []. simpl.
    rewrite (proj2 (N.eqb_neq c 10) Hc), andb_false_r.
    split; reflexivity.
  - simpl. destruct (N.eqb d 10).
    { exists ([] :: lines), last. rewrite Ha, Hac. split; reflexivity. }
    assert (Hnext : match a ++ [c] with
                    | e :: _ => N.eqb e 10
                    | [] => false
                    end
                    = match a with e :: _ => N.eqb e 10 | [] => false end).
    { destruct a; simpl; [apply N.eqb_neq, Hc|reflexivity]. }
    rewrite Hnext.
    destruct (N.eqb d 13 && _).
    { exists lines, last. split; [exact Ha|exact Hac]. }
    rewrite Ha, Hac. destruct lines as [|line lines].
    + exists [], (d :: last). split; reflexivity.
    + exists ((d :: line) :: lines), last. split; reflexivity.
Qed.

(** X3: the words of [a + "\n" + b], and those of [a + "\r\n" + b], are
    the words of [a] followed by the words of [b]: a line break always
    separates, and white space or an empty line around it adds
    nothing. *)
Theorem parseWordsFile_app_line_break (a b : jsstring) :
  parseWordsFile (a ++ 10%N :: b) = parseWordsFile a ++ parseWordsFile b /\
  parseWordsFile (a ++ 13%N :: 10%N :: b)
  = parseWordsFile a ++ parseWordsFile b.
Proof.
  split; [apply parseWordsFile_app|].
  change (a ++ 13%N :: 10%N :: b) with (a ++ [13%N] ++ 10%N :: b).
  rewrite app_assoc, parseWordsFile_app. f_equal.
  destruct (split_lines_snoc a 13) as (lines & last & Ha & Hac);
    [discriminate|].
  unfold parseWordsFile. rewrite Ha, Hac, !map_app. cbn [map].
  rewrite trim_app_white by reflexivity. reflexivity.
Qed.

(** X1: every word that [parseWordsFile] returns is non-empty, has no
    white space at either end and contains no line feed. *)
Theorem parseWordsFile_gives_words (contents : jsstring) :
  Forall word_like (parseWordsFile contents).
Proof.
  unfold parseWordsFile. apply Forall_forall. intros w Hw.
  apply filter_In in Hw as [Hw Hne].
  apply in_map_iff in Hw as (line & <- & Hline).
  split; [|split].
  - destruct (trim line); [discriminate|congruence].
  - apply trim_idempotent.
  - intros Hin.
    pose proof (split_lines_no_line_feed contents) as Hno.
    rewrite Forall_forall in Hno.
    exact (Hno line Hline (trim_In line _ Hin)).
Qed.

(** A word, a line break, and more text. *)
Lemma parseWordsFile_word_break (eol w rest : jsstring) :
  eol = [10%N] \/ eol = [13%N; 10%N] ->
  word_like w ->
  parseWordsFile (w ++ eol ++ rest) = w :: parseWordsFile rest.
Proof.
  intros [->| ->] Hw.
  - cbn [app]. rewrite parseWordsFile_app.
    rewrite (parseWordsFile_word_like_one w Hw). reflexivity.
  - change (w ++ [13%N; 10%N] ++ rest) with (w ++ [13%N] ++ 10%N :: rest).
    rewrite app_assoc, parseWordsFile_app. f_equal.
    destruct Hw as (Hne & Htrim & Hno).
    unfold parseWordsFile. rewrite split_lines_one_line.
    + cbn [map filter]. rewrite trim_app_white by reflexivity.
      rewrite Htrim. destruct w; [congruence|reflexivity].
    + intros Hin. apply in_app_or in Hin as [Hin|[Heq|[]]];
        [exact (Hno Hin)|discriminate].
Qed.

(** X2: a text that holds words, one per line, is read back as these
    words, whether its lines are separated by LF or by CR LF, and
    whether the last line is ended by the line break or not. *)
Theorem parseWordsFile_round_trip (eol : jsstring) (words : list jsstring) :
  eol = [10%N] \/ eol = [13%N; 10%N] ->
  Forall word_like words ->
  parseWordsFile (lines_ended_by eol words) = words /\
  parseWordsFile (join_by eol words) = words.
Proof.
  intros Heol Hwords. split.
  - induction Hwords as [|w words Hw _ IH]; [reflexivity|].
    unfold lines_ended_by in *. cbn [map concat].
    rewrite <- app_assoc, (parseWordsFile_word_break _ _ _ Heol Hw), IH.
    reflexivity.
  - induction Hwords as [|w words Hw Hrest IH]; [reflexivity|].
    destruct words as [|w2 words].
    + apply parseWordsFile_word_like_one, Hw.
    + change (join_by eol (w :: w2 :: words))
        with (w ++ eol ++ join_by eol (w2 :: words)).
      rewrite (parseWordsFile_word_break _ _ _ Heol Hw), IH.
      reflexivity.
Qed.

End WordsFile.

(** The case of [tests/build_dawg.test.ts]: "A\n\nB \r\n C\n". *)
Example parseWordsFile_trims_and_skips_empty_lines :
  BuildScript.parseWordsFile
    (js "A" ++ [10; 10]%N ++ js "B " ++ [13; 10]%N ++ js " C" ++ [10%N])
  = [js "A"; js "B"; js "C"].
Proof. reflexivity. Qed.

(** "A\r\nQI", without a line break at the end. *)
Example parseWordsFile_CRLF_unterminated :
  BuildScript.join_by [13%N; 10%N] [js "A"; js "QI"]
  = js "A" ++ [13; 10]%N ++ js "QI" /\
  BuildScript.parseWordsFile (js "A" ++ [13; 10]%N ++ js "QI")
  = [js "A"; js "QI"].
Proof. split; reflexivity. Qed.

Lemma parseWordsFile_round_trip_witness :
  ([13%N; 10%N] = [10%N] \/ [13%N; 10%N] = [13%N; 10%N]) /\
  Forall BuildScript.word_like [js "A"; js "QI"] /\
  (BuildScript.parseWordsFile
     (BuildScript.lines_ended_by [13%N; 10%N] [js "A"; js "QI"])
   = [js "A"; js "QI"] /\
   BuildScript.parseWordsFile
     (BuildScript.join_by [13%N; 10%N] [js "A"; js "QI"])
   = [js "A"; js "QI"]).
Proof.
  assert (Hwords : Forall BuildScript.word_like [js "A"; js "QI"]).
  { repeat constructor; try discriminate;
      intros Hin; vm_compute in Hin; intuition discriminate. }
  split; [right; reflexivity|]. split; [exact Hwords|].
  exact (parseWordsFile_round_trip [13%N; 10%N] [js "A"; js "QI"]
           (or_intror eq_refl) Hwords).
Defined.

(** ** scripts/build_dawg.mjs: more on assertSortedUnique *)

Section ValidatorOrder.

Import BuildDawg.

(** X4: the pair that the error of [assertSortedUnique] names is the
    first pair of the array that is out of order. *)
Theorem assertSortedUnique_reports_first_violation
  (words : list jsstring) (e : error) :
  assertSortedUnique words = Err e ->
  exists i,
    1 <= i < length words /\
    e = SortedUniqueError (i - 1) (at_index words (i - 1))
                          i (at_index words i) /\
    str_geb (at_index words (i - 1)) (at_index words i) = true /\
    forall k, 1 <= k < i ->
      str_ltb (at_index words (k - 1)) (at_index words k) = true.
Proof.
  unfold assertSortedUnique. intros He.
  destruct (for_loop_err _ _ _ _ He) as (j & Hj & Hge & Hbefore & ->).
  exists j. split; [lia|]. split; [reflexivity|]. split; [exact Hge|].
  exact Hbefore.
Qed.

(** X5: in an array that [assertSortedUnique] accepts, every word is
    smaller than every later word, and no word occurs twice. *)
Theorem assertSortedUnique_accepts_distinct_sorted (words : list jsstring) :
  assertSortedUnique words = Ok tt ->
  (forall i j, i < j < length words ->
     str_ltb (at_index words i) (at_index words j) = true) /\
  NoDup words.
Proof.
  intros Hok. apply assertSortedUnique_ok in Hok.
  pose proof (strictly_increasing_pairwise words Hok) as Hpair.
  split; [exact Hpair|].
  apply (NoDup_nth words []). intros i j Hi Hj Heq.
  destruct (Nat.lt_trichotomy i j) as [Hlt|[Heq'|Hgt]]; [|exact Heq'|].
  - specialize (Hpair i j (conj Hlt Hj)). unfold at_index in Hpair.
    rewrite Heq, str_ltb_irrefl in Hpair. discriminate.
  - specialize (Hpair j i (conj Hgt Hi)). unfold at_index in Hpair.
    rewrite Heq, str_ltb_irrefl in Hpair. discriminate.
Qed.

End ValidatorOrder.

Lemma assertSortedUnique_reports_first_violation_witness :
  BuildDawg.assertSortedUnique [js "A"; js "CAT"; js "CAR"; js "BAT"]
  = Err (SortedUniqueError 1 (js "CAT") 2 (js "CAR")) /\
  exists i,
    1 <= i < length [js "A"; js "CAT"; js "CAR"; js "BAT"] /\
    SortedUniqueError 1 (js "CAT") 2 (js "CAR")
    = SortedUniqueError (i - 1)
        (BuildDawg.at_index [js "A"; js "CAT"; js "CAR"; js "BAT"] (i - 1))
        i (BuildDawg.at_index [js "A"; js "CAT"; js "CAR"; js "BAT"] i) /\
    str_geb
      (BuildDawg.at_index [js "A"; js "CAT"; js "CAR"; js "BAT"] (i - 1))
      (BuildDawg.at_index [js "A"; js "CAT"; js "CAR"; js "BAT"] i) = true /\
    forall k, 1 <= k < i ->
      str_ltb
        (BuildDawg.at_index [js "A"; js "CAT"; js "CAR"; js "BAT"] (k - 1))
        (BuildDawg.at_index [js "A"; js "CAT"; js "CAR"; js "BAT"] k) = true.
Proof.
  split; [reflexivity|].
  exact (assertSortedUnique_reports_first_violation
           [js "A"; js "CAT"; js "CAR"; js "BAT"]
           (SortedUniqueError 1 (js "CAT") 2 (js "CAR")) eq_refl).
Defined.

Lemma assertSortedUnique_accepts_distinct_sorted_witness :
  BuildDawg.assertSortedUnique [js "A"; js "I"; js "QI"] = Ok tt /\
  ((forall i j, i < j < length [js "A"; js "I"; js "QI"] ->
      str_ltb (BuildDawg.at_index [js "A"; js "I"; js "QI"] i)
              (BuildDawg.at_index [js "A"; js "I"; js "QI"] j) = true) /\
   NoDup [js "A"; js "I"; js "QI"]).
Proof.
  split; [reflexivity|].
  exact (assertSortedUnique_accepts_distinct_sorted
           [js "A"; js "I"; js "QI"] eq_refl).
Defined.

(** ** src/dict.ts: more on the queries and on loadDictionary *)

Lemma replace_at_nth_same {A} (l : list A) (p : nat) (x : A) :
  p < length l -> nth_error (Dict.replace_at l p x) p = Some x.
Proof.
  revert p. induction l as [|y l IH]; intros [|p]; simpl;
    try lia; [reflexivity|].
  intros Hp. apply IH. lia.
Qed.

Lemma replace_at_nth_other {A} (l : list A) (p q : nat) (x : A) :
  q <> p -> nth_error (Dict.replace_at l p x) q = nth_error l q.
Proof.
  revert p q. induction l as [|y l IH]; intros [|p] [|q]; simpl;
    try reflexivity; try congruence.
  intros Hne. apply IH. congruence.
Qed.

Lemma replace_at_length {A} (l : list A) (p : nat) (x : A) :
  length (Dict.replace_at l p x) = length l.
Proof.
  revert p. induction l as [|y l IH]; intros [|p]; simpl;
    try reflexivity.
  rewrite IH. reflexivity.
Qed.

Section QueriesAndLoads.

Import Dict DictRuns.

Context `{Host}.

Ltac body_cases Hstep :=
  unfold body_step in Hstep;
  repeat match type of Hstep with
         | context [match ?scrutinee with _ => _ end] =>
             destruct scrutinee eqn:?; try discriminate Hstep
         end;
  injection Hstep as <-.

(** A segment that ends the body with success has assigned [trie]. *)
Lemma body_step_success_assigns (s : Stage) (x : Input) (eff : Effect) :
  body_step s x = Some eff -> next eff = Done (Ok tt) ->
  assigned eff <> None.
Proof.
  intros Hstep. body_cases Hstep; simpl; try discriminate.
Qed.

(** A segment fetches at most once, and only on the way from the
    metadata to the artifact. *)
Lemma body_step_issued (s : Stage) (x : Input) (eff : Effect) :
  body_step s x = Some eff ->
  issued s + length (fetched eff) <= issued (next eff).
Proof.
  intros Hstep. body_cases Hstep; simpl; lia.
Qed.

(** X6: while no event resets the module, a dictionary that is loaded
    stays loaded, with the same trie: no call of [loadDictionary] and no
    step of a load replaces or clears it. *)
Theorem loaded_trie_is_kept
  (w w' : World) (ev : Event) (out : Output) (t : TrieLike.t) :
  Reachable w -> step w ev = Some (w', out) ->
  trie (vars w) = Some t -> trie (vars w') = Some t.
Proof.
  intros Hreach Hstep Hloaded.
  pose proof (reachable_single_flight w Hreach) as Hinv.
  destruct ev as [metaUrl | p x | p]; simpl in Hstep.
  - unfold loadDictionary in Hstep. rewrite Hloaded in Hstep.
    injection Hstep as <- _. exact Hloaded.
  - unfold deliver in Hstep.
    destruct (nth_error (tasks w) p) as [tk|] eqn:Hnth; [|discriminate].
    destruct (body_step (stage tk) x) as [eff|] eqn:Hbody; [|discriminate].
    assert (Hrunning : in_flight w p).
    { exists tk. split; [exact Hnth|]. intros r Hr.
      rewrite Hr, body_step_done in Hbody. discriminate. }
    destruct (in_flight_current w p Hinv Hrunning) as (_ & Hnull & _).
    congruence.
  - unfold resume in Hstep.
    destruct (nth_error (tasks w) p) as [tk|]; [|discriminate].
    destruct (stage tk); try discriminate.
    destruct (ownerWaiting tk); [|discriminate].
    injection Hstep as <- _. exact Hloaded.
Qed.

(** One step keeps the link between [trie] and the loads that have
    succeeded. *)
Lemma trie_set_iff_step (w w' : World) (ev : Event) (out : Output) :
  step w ev = Some (w', out) ->
  (trie (vars w) <> None <->
   exists p t, nth_error (tasks w) p = Some t /\ stage t = Done (Ok tt)) ->
  (trie (vars w') <> None <->
   exists p t, nth_error (tasks w') p = Some t /\ stage t = Done (Ok tt)).
Proof.
  intros Hstep Hinv.
  destruct ev as [metaUrl | p x | p]; simpl in Hstep.
  - unfold loadDictionary in Hstep.
    destruct (trie (vars w)) as [tr|] eqn:Htrie.
    { injection Hstep as <- _. rewrite Htrie. exact Hinv. }
    destruct (loadPromise (vars w)) as [q|].
    { injection Hstep as <- _. rewrite Htrie. exact Hinv. }
    injection Hstep as <- _. cbn [vars tasks after write_loadPromise snd trie].
    rewrite Htrie. split; [congruence|].
    intros (p & t & Hnth & Hdone). apply Hinv.
    destruct (Nat.lt_ge_cases p (length (tasks w))) as [Hlt|Hge].
    + rewrite nth_error_app1 in Hnth by exact Hlt. eauto.
    + rewrite nth_error_app2 in Hnth by exact Hge.
      destruct (p - length (tasks w)) as [|[|n]]; simpl in Hnth;
        try discriminate.
      injection Hnth as <-. discriminate.
  - unfold deliver in Hstep.
    destruct (nth_error (tasks w) p) as [tk|] eqn:Hnth; [|discriminate].
    destruct (body_step (stage tk) x) as [eff|] eqn:Hbody; [|discriminate].
    injection Hstep as <- _. cbn [vars tasks].
    assert (Hp : p < length (tasks w))
      by (apply nth_error_Some; congruence).
    destruct (assigned eff) as [tr|] eqn:Hassigned.
    + split; [|discriminate]. intros _.
      exists p, {| stage := next eff; ownerWaiting := ownerWaiting tk |}.
      split; [apply replace_at_nth_same, Hp|].
      exact (body_step_assigned _ _ _ _ Hbody Hassigned).
    + rewrite Hinv. split; intros (q & t & Hq & Hdone).
      * exists q, t. split; [|exact Hdone].
        rewrite replace_at_nth_other; [exact Hq|].
        intros ->. rewrite Hnth in Hq. injection Hq as ->.
        rewrite Hdone, body_step_done in Hbody. discriminate.
      * destruct (Nat.eq_dec q p) as [->|Hne].
        { rewrite replace_at_nth_same in Hq by exact Hp.
          injection Hq as <-. simpl in Hdone.
          elim (body_step_success_assigns _ _ _ Hbody Hdone Hassigned). }
        rewrite replace_at_nth_other in Hq by exact Hne. eauto.
  - unfold resume in Hstep.
    destruct (nth_error (tasks w) p) as [tk|] eqn:Hnth; [|discriminate].
    destruct (stage tk) as [ | | | | | | |r] eqn:Hstage; try discriminate.
    destruct (ownerWaiting tk); [|discriminate].
    injection Hstep as <- _.
    cbn [vars tasks after write_loadPromise snd trie].
    assert (Hp : p < length (tasks w))
      by (apply nth_error_Some; congruence).
    rewrite Hinv. split; intros (q & t & Hq & Hdone).
    + destruct (Nat.eq_dec q p) as [->|Hne].
      * exists p, {| stage := Done r; ownerWaiting := false |}.
        split; [apply replace_at_nth_same, Hp|].
        rewrite Hnth in Hq. injection Hq as ->. simpl. congruence.
      * exists q, t. split; [|exact Hdone].
        rewrite replace_at_nth_other; [exact Hq|exact Hne].
    + destruct (Nat.eq_dec q p) as [->|Hne].
      * rewrite replace_at_nth_same in Hq by exact Hp.
        injection Hq as <-. simpl in Hdone.
        exists p, tk. split; [exact Hnth|]. congruence.
      * rewrite replace_at_nth_other in Hq by exact Hne. eauto.
Qed.

(** X7: [trie] is set exactly when the body of some load has run to its
    end without an error. *)
Theorem trie_set_iff_a_load_succeeded (w : World) :
  Reachable w ->
  (trie (vars w) <> None <->
   exists p t, nth_error (tasks w) p = Some t /\ stage t = Done (Ok tt)).
Proof.
  induction 1 as [|w ev w' out _ IH Hstep].
  - simpl. split; [congruence|].
    intros (p & t & Hnth & _). destruct p; discriminate.
  - exact (trie_set_iff_step _ _ _ _ Hstep IH).
Qed.

Lemma list_sum_replace_at (l : list Task) (p : nat) (t t' : Task) :
  nth_error l p = Some t ->
  issued (stage t) <= issued (stage t') ->
  list_sum (map (fun k => issued (stage k)) (replace_at l p t'))
  + issued (stage t)
  = list_sum (map (fun k => issued (stage k)) l) + issued (stage t').
Proof.
  revert p. induction l as [|y l IH]; intros [|p]; simpl;
    try discriminate.
  - intros [= ->] _. lia.
  - intros Hnth Hle. specialize (IH p Hnth Hle). lia.
Qed.

Lemma issued_le_2 (l : list Task) :
  list_sum (map (fun k => issued (stage k)) l) <= 2 * length l.
Proof.
  induction l as [|t l IH]; simpl; [lia|].
  assert (issued (stage t) <= 2) by (destruct (stage t); simpl; lia).
  lia.
Qed.

Lemma requests_issued (w : World) :
  Reachable w ->
  length (requests w) <= list_sum (map (fun k => issued (stage k)) (tasks w)).
Proof.
  induction 1 as [|w ev w' out _ IH Hstep]; [simpl; lia|].
  destruct ev as [metaUrl | p x | p]; simpl in Hstep.
  - unfold loadDictionary in Hstep.
    destruct (trie (vars w)); [injection Hstep as <- _; exact IH|].
    destruct (loadPromise (vars w)); [injection Hstep as <- _; exact IH|].
    injection Hstep as <- _. cbn [tasks requests].
    rewrite length_app, map_app, list_sum_app. simpl. lia.
  - unfold deliver in Hstep.
    destruct (nth_error (tasks w) p) as [tk|] eqn:Hnth; [|discriminate].
    destruct (body_step (stage tk) x) as [eff|] eqn:Hbody; [|discriminate].
    injection Hstep as <- _. cbn [tasks requests].
    pose proof (body_step_issued _ _ _ Hbody) as Hissued.
    pose proof (list_sum_replace_at (tasks w) p tk
                  {| stage := next eff; ownerWaiting := ownerWaiting tk |}
                  Hnth) as Hsum.
    cbn [stage] in Hsum. rewrite length_app. lia.
  - unfold resume in Hstep.
    destruct (nth_error (tasks w) p) as [tk|] eqn:Hnth; [|discriminate].
    destruct (stage tk) as [ | | | | | | |r] eqn:Hstage; try discriminate.
    destruct (ownerWaiting tk); [|discriminate].
    injection Hstep as <- _. cbn [tasks requests].
    pose proof (list_sum_replace_at (tasks w) p tk
                  {| stage := Done r; ownerWaiting := false |} Hnth) as Hsum.
    cbn [stage] in Hsum. rewrite Hstage in Hsum. simpl in Hsum. lia.
Qed.

(** X8: [loadDictionary] never fetches more than two URLs for a load it
    has started, and fetches nothing otherwise. *)
Theorem at_most_two_fetches_per_load (w : World) :
  Reachable w -> length (requests w) <= 2 * length (tasks w).
Proof.
  intros Hreach.
  pose proof (requests_issued w Hreach).
  pose proof (issued_le_2 (tasks w)). lia.
Qed.

(** The body of the load started last resumes. *)
Lemma deliver_last (vs : Vars) (before : list Task) (tk : Task)
  (reqs : list jsstring) (x : Input) (eff : Effect) :
  body_step (stage tk) x = Some eff ->
  deliver (length before) x
    {| vars := vs; tasks := before ++ [tk]; requests := reqs |}
  = Some ({| vars := match assigned eff with
                     | Some tr => after (write_trie (Some tr) vs)
                     | None => vs
                     end;
             tasks := before ++ [{| stage := next eff;
                                    ownerWaiting := ownerWaiting tk |}];
             requests := reqs ++ fetched eff |},
          Silent).
Proof.
  intros Hbody. unfold deliver. cbn [tasks vars requests].
  rewrite nth_error_app_at_length, Hbody, replace_at_app_last.
  reflexivity.
Qed.

(** The call that started the last load resumes. *)
Lemma resume_last (vs : Vars) (before : list Task) (r : Result unit)
  (reqs : list jsstring) :
  resume (length before)
    {| vars := vs;
       tasks := before ++ [{| stage := Done r; ownerWaiting := true |}];
       requests := reqs |}
  = Some ({| vars := after (write_loadPromise None vs);
             tasks := before ++ [{| stage := Done r;
                                    ownerWaiting := false |}];
             requests := reqs |},
          Settles r).
Proof.
  unfold resume. cbn [tasks vars requests].
  rewrite nth_error_app_at_length. cbn [stage ownerWaiting].
  rewrite replace_at_app_last. reflexivity.
Qed.

(** X9: a call of [loadDictionary(metaUrl)] that starts a load (nothing
    is loaded and no load is pending: at the start, or after loads that
    failed) and whose load goes through (both responses are ok, the
    metadata is an object, the artifact URL resolves, the imported
    module gives a constructor and the constructor accepts the text)
    fetches [metaUrl] and then the artifact URL, and nothing else; it
    ends with the trie that the constructor makes of the fetched text in
    [trie] and with [loadPromise] cleared, and [isWord] then does what
    that trie does on the normalized input.  A first import that fails
    is made up for by the import of the ".js" path. *)
Theorem successful_load_installs_trie
  (w : World)
  (metaUrl : jsstring) (metaStatus : N) (meta : DictMeta) (dawgStatus : N)
  (dawgUrl packed : jsstring) (ns : ModuleNS) (ctor : Ctor)
  (t : TrieLike.t) (imports : list (Result ModuleNS)) :
  trie (vars w) = None ->
  loadPromise (vars w) = None ->
  resolveAssetUrl metaUrl (dawgFile_of meta) = Ok dawgUrl ->
  resolvePTrie ns = Ok ctor ->
  ctor packed = Ok t ->
  (imports = [Ok ns] \/ exists e, imports = [Err e; Ok ns]) ->
  exists w' outs,
    run w (loadEvents (length (tasks w)) metaUrl metaStatus meta
                      dawgStatus packed imports)
    = Some (w', outs) /\
    hd Silent outs = Awaits (length (tasks w)) /\
    last outs Silent = Settles (Ok tt) /\
    vars w' = loadedWith t /\
    requests w' = requests w ++ [metaUrl; dawgUrl] /\
    tasks w' = tasks w ++ [{| stage := Done (Ok tt);
                              ownerWaiting := false |}] /\
    forall s,
      outcome (isWord s (vars w')) =
      (if is_empty (normalizeWord s) then Ok false
       else TrieLike.isWord t (normalizeWord s)).
Proof.
  intros Htrie Hpromise Hurl Hns Hctor Himports.
  destruct w as [[tr lp] before reqs]. cbn [vars trie loadPromise] in *.
  subst tr lp. cbn [tasks requests].
  assert (Hjson : body_step (AwaitMetaJson metaUrl) (Settled_Json (Ok meta))
                  = Some {| next := AwaitDawgFetch dawgUrl;
                            fetched := [dawgUrl];
                            assigned := None |}).
  { unfold body_step. rewrite Hurl. reflexivity. }
  assert (Hmade : body_step (AwaitCtor packed (Ok ctor)) Settled_Ctor
                  = Some {| next := Done (Ok tt);
                            fetched := [];
                            assigned := Some t |}).
  { unfold body_step. rewrite Hctor. reflexivity. }
  assert (Hrun : exists w' outs,
    run {| vars := {| trie := None; loadPromise := None |};
           tasks := before; requests := reqs |}
        (loadEvents (length before) metaUrl metaStatus meta dawgStatus
                    packed imports)
    = Some (w', outs) /\
    hd Silent outs = Awaits (length before) /\
    last outs Silent = Settles (Ok tt) /\
    vars w' = loadedWith t /\
    requests w' = reqs ++ [metaUrl; dawgUrl] /\
    tasks w' = before ++ [{| stage := Done (Ok tt);
                             ownerWaiting := false |}]).
  { destruct Himports as [->|[e ->]];
      unfold loadEvents; cbn [app map run step];
      unfold loadDictionary;
      cbn [vars trie loadPromise tasks requests after write_loadPromise snd];
      (erewrite deliver_last by reflexivity);
      cbn [assigned next fetched goto stage ownerWaiting];
      (erewrite deliver_last by exact Hjson);
      cbn [assigned next fetched goto stage ownerWaiting];
      (erewrite deliver_last by reflexivity);
      cbn [assigned next fetched goto stage ownerWaiting];
      (erewrite deliver_last by reflexivity);
      cbn [assigned next fetched goto stage ownerWaiting];
      (erewrite deliver_last by reflexivity);
      cbn [assigned next fetched goto stage ownerWaiting];
      try ((erewrite deliver_last by reflexivity);
           cbn [assigned next fetched goto stage ownerWaiting]);
      rewrite Hns;
      (erewrite deliver_last by exact Hmade);
      cbn [assigned next fetched goto stage ownerWaiting after write_trie
           snd loadPromise];
      rewrite resume_last;
      (eexists; eexists; split; [reflexivity|]);
      cbn [vars tasks requests hd last after write_loadPromise snd trie];
      (split; [reflexivity|]); (split; [reflexivity|]);
      (split; [reflexivity|]); (split; [|reflexivity]);
      rewrite <- !app_assoc; reflexivity. }
  destruct Hrun as (w' & outs & Hrun & Hhd & Hlast & Hvars & Hreq & Htasks).
  exists w', outs. repeat split; try assumption.
  intros s. rewrite isWord_run, Hvars. reflexivity.
Qed.

Hypothesis toUpperCase_AZ :
  forall s, forallb isAZ s = true -> toUpperCase s = s.

(** X10: a caller may normalize the input itself or leave it to the
    query: [isWord] and [isPrefix] do the same on [normalizeWord(s)] as
    on [s], on any module variables. *)
Theorem queries_same_on_normalized_input (s : jsstring) (v : Vars) :
  isWord (normalizeWord s) v = isWord s v /\
  isPrefix (normalizeWord s) v = isPrefix s v.
Proof.
  assert (Hidem : normalizeWord (normalizeWord s) = normalizeWord s).
  { apply (normalizeWord_fixes toUpperCase_AZ).
    apply strip_non_AZ_alphabet. }
  rewrite !isWord_run, !isPrefix_run, Hidem. split; reflexivity.
Qed.

End QueriesAndLoads.

(** ** scripts/build_dawg.mjs: the build *)

Section Build.

Import BuildScript.

Context {number : Type} `{BuildEnv number}.

Lemma writes_app (tr tr' : list Action) :
  writes (tr ++ tr') = writes tr ++ writes tr'.
Proof. apply filter_app. Qed.

Lemma step_lines_app (tr tr' : list Action) :
  step_lines (tr ++ tr') = step_lines tr ++ step_lines tr'.
Proof.
  induction tr as [|a tr IH]; simpl; [reflexivity|].
  destruct a as [[] | | | | | | ]; simpl; rewrite IH; reflexivity.
Qed.

Lemma bind_returned {A C} (m : B A) (k : A -> B C)
  (tr tr' : list Action) (c : C) :
  bind m k tr = (Returned c, tr') ->
  exists a tr1, m tr = (Returned a, tr1) /\ k a tr1 = (Returned c, tr').
Proof.
  unfold bind. destruct (m tr) as [[a|f] tr1]; [|discriminate].
  intros Hk. exists a, tr1. split; [reflexivity|exact Hk].
Qed.

Lemma bind_threw {A C} (m : B A) (k : A -> B C)
  (tr tr' : list Action) (f : failure) :
  bind m k tr = (Threw f, tr') ->
  m tr = (Threw f, tr') \/
  exists a tr1, m tr = (Returned a, tr1) /\ k a tr1 = (Threw f, tr').
Proof.
  unfold bind. destruct (m tr) as [[a|g] tr1].
  - intros Hk. right. exists a, tr1. split; [reflexivity|exact Hk].
  - intros [= <- <-]. left. reflexivity.
Qed.

Lemma ask_returned {A} (a : Action) (answer : list Action -> Result A)
  (tr tr' : list Action) (x : A) :
  ask a answer tr = (Returned x, tr') ->
  answer tr = Ok x /\ tr' = tr ++ [a].
Proof.
  unfold ask. destruct (answer tr); [|discriminate].
  intros [= <- <-]. split; reflexivity.
Qed.

Lemma ask_threw {A} (a : Action) (answer : list Action -> Result A)
  (tr tr' : list Action) (f : failure) :
  ask (A := A) a answer tr = (Threw f, tr') ->
  exists e, f = Thrown e /\ answer tr = Err e /\ tr' = tr ++ [a].
Proof.
  unfold ask. destruct (answer tr) as [x|e]; [discriminate|].
  intros [= <- <-]. exists e. repeat split.
Qed.

Lemma lift_returned {A} (r : Result A) (tr tr' : list Action) (x : A) :
  lift r tr = (Returned x, tr') -> r = Ok x /\ tr' = tr.
Proof.
  destruct r; simpl; [|discriminate].
  intros [= <- <-]. split; reflexivity.
Qed.

Lemma lift_threw {A} (r : Result A) (tr tr' : list Action) (f : failure) :
  lift r tr = (Threw f, tr') -> exists e, f = Thrown e /\ tr' = tr.
Proof.
  destruct r as [x|e]; simpl; [discriminate|].
  intros [= <- <-]. exists e. split; reflexivity.
Qed.

(** [progress.start] prints the next step number and does not fail. *)
Lemma progress_start_run (title : string) (detail : option Detail)
  (progress : ProgressTracker) (tr : list Action) :
  progress_start title detail progress tr =
  (Returned {| totalSteps := totalSteps progress;
               currentStep := currentStep progress + 1 |},
   tr ++ Logged (StepLine (currentStep progress + 1)
                          (totalSteps progress) title)
      :: match given detail with
         | Some d => [Logged (DetailLine d)]
         | None => []
         end).
Proof.
  unfold progress_start, bind, console_log, ret. simpl.
  destruct (given detail); simpl; [|reflexivity].
  rewrite <- app_assoc. reflexivity.
Qed.

Lemma silent_app (a b : list Action) :
  silent a -> silent b -> silent (a ++ b).
Proof.
  intros [Ha Ha'] [Hb Hb']. split.
  - rewrite writes_app, Ha, Hb. reflexivity.
  - rewrite step_lines_app, Ha', Hb'. reflexivity.
Qed.

Lemma import_run (specifier : string) (tr tr' : list Action)
  (r : Outcome TrieModule) :
  import specifier tr = (r, tr') ->
  tr' = tr ++ [Imported specifier] /\
  forall f, r = Threw f -> exists e, f = Thrown e.
Proof.
  unfold import, ask. destruct (import_module tr specifier) as [ns|e];
    intros [= <- <-]; (split; [reflexivity|]); intros f; [discriminate|].
  intros [= <-]. exists e. reflexivity.
Qed.

Lemma loadTrieCtor_run (tr tr' : list Action) (r : Outcome TrieClass) :
  loadTrieCtor tr = (r, tr') ->
  exists added, tr' = tr ++ added /\ silent added /\
    forall f, r = Threw f -> f <> LicenseNotFound.
Proof.
  unfold loadTrieCtor, bind, attempt.
  destruct (import "dawg-lookup/lib/trie" tr) as [first tr1] eqn:Hfirst.
  destruct (import_run _ _ _ _ Hfirst) as [-> _].
  destruct first as [ns|f0].
  - unfold ret at 1.
    destruct (resolveTrie ns); intros [= <- <-];
      (eexists; split; [reflexivity|]); (split; [split; reflexivity|]);
      intros f [= <-]; discriminate.
  - destruct (import "dawg-lookup/lib/trie.js" _) as [second tr2]
      eqn:Hsecond.
    destruct (import_run _ _ _ _ Hsecond) as [-> Hthrown].
    destruct second as [ns|f].
    + destruct (resolveTrie ns); intros [= <- <-];
        (eexists; split; [rewrite <- app_assoc; reflexivity|]);
        (split; [split; reflexivity|]); intros f [= <-]; discriminate.
    + intros [= <- <-].
      eexists; split; [rewrite <- app_assoc; reflexivity|].
      split; [split; reflexivity|].
      intros g [= <-].
      destruct (Hthrown f eq_refl) as [e ->]. discriminate.
Qed.

(** [buildPackedDawg] only imports the library: it changes nothing on
    disk and prints nothing. *)
Lemma buildPackedDawg_run (words : list jsstring) (tr tr' : list Action)
  (r : Outcome jsstring) :
  buildPackedDawg words tr = (r, tr') ->
  exists added, tr' = tr ++ added /\ silent added /\
    forall f, r = Threw f -> f <> LicenseNotFound.
Proof.
  unfold buildPackedDawg. unfold bind at 1.
  destruct (loadTrieCtor tr) as [rc tr1] eqn:Hctor.
  destruct (loadTrieCtor_run _ _ _ Hctor) as (added & -> & Hsilent & Hne).
  intros Hrest. exists added.
  assert (Hboth : tr' = tr ++ added /\
                  forall f, r = Threw f -> f <> LicenseNotFound).
  { destruct rc as [cls|f0].
    2:{ injection Hrest as <- <-. split; [reflexivity|].
        intros f [= <-]. exact (Hne f0 eq_refl). }
    unfold bind, lift, ret, throw in Hrest.
    destruct (construct cls) as [trie|e]; cbn in Hrest.
    2:{ injection Hrest as <- <-. split; [reflexivity|].
        intros f [= <-]. discriminate. }
    assert (Hpack : forall trie' : instance cls,
              (let (o, tr2) :=
                 match pack cls trie' with
                 | Ok a => fun tr0 => (Returned a, tr0)
                 | Err e => fun tr0 => (Threw (Thrown e), tr0)
                 end (tr ++ added) in
               match o with
               | Returned a =>
                   match a with
                   | Some packed => fun tr0 => (Returned packed, tr0)
                   | None => fun tr0 => (Threw PackedNotString, tr0)
                   end tr2
               | Threw f => (Threw f, tr2)
               end) = (r, tr') ->
              tr' = tr ++ added /\
              forall f, r = Threw f -> f <> LicenseNotFound).
    { intros trie' Hrun.
      destruct (pack cls trie') as [[packed|]|e];
        injection Hrun as <- <-; (split; [reflexivity|]);
        intros f [= <-]; discriminate. }
    destruct (addWords cls) as [addWords|].
    - destruct (addWords words trie) as [trie'|e]; cbn in Hrest.
      + exact (Hpack trie' Hrest).
      + injection Hrest as <- <-. split; [reflexivity|].
        intros f [= <-]. discriminate.
    - destruct (insert cls) as [insert|].
      + destruct (insert_each insert words trie) as [trie'|e];
          cbn in Hrest.
        * exact (Hpack trie' Hrest).
        * injection Hrest as <- <-. split; [reflexivity|].
          intros f [= <-]. discriminate.
      + cbn in Hrest. injection Hrest as <- <-. split; [reflexivity|].
        intros f [= <-]. discriminate. }
  destruct Hboth as [Htr Hr].
  split; [exact Htr|]. split; [exact Hsilent|exact Hr].
Qed.

Lemma first_accessible_run (cs : list Path) (tr tr' : list Action)
  (r : Outcome (option Path)) :
  first_accessible cs tr = (r, tr') ->
  exists added found, tr' = tr ++ added /\ silent added /\
    r = Returned found /\
    forall source, found = Some source -> In source cs.
Proof.
  revert tr. induction cs as [|c cs IH]; intros tr; simpl.
  - intros [= <- <-]. exists [], None. rewrite app_nil_r.
    repeat split. discriminate.
  - unfold bind, access. destruct (fs_access tr c).
    + intros [= <- <-]. exists [Accessed c], (Some c). repeat split.
      intros source [= <-]. left. reflexivity.
    + intros Hrest.
      destruct (IH _ Hrest) as (added & found & -> & Hsilent & -> & Hin).
      exists (Accessed c :: added), found. rewrite <- app_assoc.
      split; [reflexivity|].
      split; [destruct Hsilent as [Hw Hs]; split; simpl; assumption|].
      split; [reflexivity|].
      intros source Hfound. right. exact (Hin source Hfound).
Qed.

(** [copyDawgLookupLicense]: without a license nothing is changed on
    disk; otherwise the directory is made and one of the candidates is
    copied. *)
Lemma copyDawgLookupLicense_run (tr tr' : list Action) (r : Outcome unit) :
  copyDawgLookupLicense tr = (r, tr') ->
  exists added, tr' = tr ++ added /\ step_lines added = [] /\
    match r with
    | Returned _ =>
        exists source, In source candidates /\
          writes added = [MadeDir LICENSES_DIR;
                          Copied source DAWG_LICENSE_DEST]
    | Threw LicenseNotFound => writes added = []
    | Threw _ => True
    end.
Proof.
  unfold copyDawgLookupLicense. unfold bind at 1.
  destruct (first_accessible candidates tr) as [rf tr1] eqn:Hfound.
  destruct (first_accessible_run _ _ _ _ Hfound)
    as (added & found & -> & [Hw Hs] & -> & Hin).
  destruct found as [source|].
  - unfold bind, mkdir, copyFile, ask.
    destruct (fs_mkdir _ _) as [[]|e].
    + destruct (fs_copyFile _ _ _) as [[]|e]; intros [= <- <-];
        (eexists; split; [rewrite <- !app_assoc; reflexivity|]);
        (split; [rewrite step_lines_app, Hs; reflexivity|]);
        [|exact I].
      exists source. split; [exact (Hin source eq_refl)|].
      rewrite writes_app, Hw. reflexivity.
    + intros [= <- <-].
      eexists; split; [rewrite <- !app_assoc; reflexivity|].
      split; [rewrite step_lines_app, Hs; reflexivity|exact I].
  - intros [= <- <-]. exists added.
    split; [reflexivity|]. split; [exact Hs|exact Hw].
Qed.

Lemma readJson_run (pathname : Path) (tr tr' : list Action)
  (r : Outcome (Json number)) :
  readJson pathname tr = (r, tr') ->
  tr' = tr ++ [Read pathname] /\
  forall f, r = Threw f -> f <> LicenseNotFound.
Proof.
  unfold readJson, bind, attempt, readFile, ask, lift.
  destruct (fs_readFile tr pathname) as [raw|e].
  - destruct (JSON_parse raw) as [v|e]; simpl.
    + intros [= <- <-]. split; [reflexivity|discriminate].
    + destruct (match error_code e with
                | Some code => String.eqb code "ENOENT"
                | None => false
                end); intros [= <- <-]; (split; [reflexivity|]);
        [discriminate|intros f [= <-]; discriminate].
  - simpl.
    destruct (match error_code e with
              | Some code => String.eqb code "ENOENT"
              | None => false
              end); intros [= <- <-]; (split; [reflexivity|]);
      [discriminate|intros f [= <-]; discriminate].
Qed.

(** [writeMeta]: when it returns, it has read the metadata, made the
    directory and written the metadata with [artifacts] assigned; it
    never writes anything else. *)
Lemma writeMeta_run (bytes : N) (sha : jsstring) (tr tr' : list Action)
  (r : Outcome unit) :
  writeMeta bytes sha tr = (r, tr') ->
  exists added, tr' = tr ++ added /\ step_lines added = [] /\
    match r with
    | Returned _ =>
        exists meta meta',
          readJson META_PATH tr = (Returned meta, tr ++ [Read META_PATH]) /\
          assign_artifacts meta bytes sha = Ok meta' /\
          writes added = [MadeDir [];
                          Wrote META_PATH (JSON_stringify meta' ++ [10%N])]
    | Threw f => f <> LicenseNotFound
    end.
Proof.
  unfold writeMeta. unfold bind at 1.
  destruct (readJson META_PATH tr) as [rj tr1] eqn:Hread.
  destruct (readJson_run _ _ _ _ Hread) as [-> Hne].
  destruct rj as [meta|f].
  2:{ intros [= <- <-]. eexists. split; [reflexivity|].
      split; [reflexivity|exact (Hne f eq_refl)]. }
  unfold bind at 1.
  destruct (assign_artifacts meta bytes sha) as [meta'|e] eqn:Hassign;
    simpl.
  2:{ intros [= <- <-]. eexists. split; [reflexivity|].
      split; [reflexivity|discriminate]. }
  unfold bind, mkdir, writeFile, ask, dirname. simpl.
  destruct (fs_mkdir _ _) as [[]|e].
  - destruct (fs_writeFile _ _ _) as [[]|e]; intros [= <- <-];
      (eexists; split; [rewrite <- !app_assoc; reflexivity|]);
      (split; [reflexivity|]); [|discriminate].
    exists meta, meta'. repeat split. exact Hassign.
  - intros [= <- <-].
    eexists; split; [rewrite <- !app_assoc; reflexivity|].
    split; [reflexivity|discriminate].
Qed.

Ltac returned_step Hrun a tr1 Hstep :=
  apply bind_returned in Hrun as (a & tr1 & Hstep & Hrun);
  cbv beta zeta in Hrun.

Ltac started Hstep :=
  rewrite progress_start_run in Hstep; injection Hstep as <- <-.

Ltac logged Hstep :=
  unfold progress_done, progress_summary, console_log in Hstep;
  injection Hstep as <- <-.

Ltac asked Hstep Hanswer :=
  unfold readFile, mkdir, writeFile, copyFile in Hstep;
  apply ask_returned in Hstep as [Hanswer ->].

(** X11: when [buildDawgFromWordsFile] returns, the words of words.txt
    have passed [assertSortedUnique] and are counted in [wordsCount];
    [dawgBytes] and [dawgSha256] are the UTF-8 length and the hash of the
    text written to dict.dawg; on disk the script has made the directory
    and written dict.dawg, made the license directory and copied one of
    the two candidates, made the directory and written dict.meta.json
    with [artifacts] assigned from the same length and hash, in this
    order and nothing else; and it has announced the steps 1/5 to 5/5. *)
Theorem buildDawgFromWordsFile_returns
  (result : BuildResult) (tr : list Action) :
  buildDawgFromWordsFile [] = (Returned result, tr) ->
  exists text packed source meta meta',
    fs_readFile [Logged (StepLine 1 5 "Read + validate words.txt")]
                WORDS_PATH = Ok text /\
    BuildDawg.assertSortedUnique (parseWordsFile text) = Ok tt /\
    wordsCount result = length (parseWordsFile text) /\
    dawgBytes result = byteLength packed /\
    dawgSha256 result = sha256Hex packed /\
    In source candidates /\
    (exists before, readJson META_PATH before
                    = (Returned meta, before ++ [Read META_PATH])) /\
    assign_artifacts meta (dawgBytes result) (dawgSha256 result)
    = Ok meta' /\
    writes tr = [MadeDir (dirname OUT_PATH);
                 Wrote OUT_PATH packed;
                 MadeDir LICENSES_DIR;
                 Copied source DAWG_LICENSE_DEST;
                 MadeDir (dirname META_PATH);
                 Wrote META_PATH (JSON_stringify meta' ++ [10%N])] /\
    step_lines tr = [(1, 5); (2, 5); (3, 5); (4, 5); (5, 5)].
Proof.
  intros Hrun. unfold buildDawgFromWordsFile in Hrun.
  cbv zeta in Hrun.
  returned_step Hrun p1 tr1 Hs1. started Hs1.
  returned_step Hrun text tr2 Hs2. asked Hs2 Htext.
  returned_step Hrun u3 tr3 Hs3.
  apply lift_returned in Hs3 as [Hvalid ->].
  returned_step Hrun u4 tr4 Hs4. logged Hs4.
  returned_step Hrun p5 tr5 Hs5. started Hs5.
  returned_step Hrun packed tr6 Hs6.
  destruct (buildPackedDawg_run _ _ _ _ Hs6)
    as (imports & -> & [Himports Himports'] & _).
  returned_step Hrun u7 tr7 Hs7. logged Hs7.
  returned_step Hrun p8 tr8 Hs8. started Hs8.
  returned_step Hrun u9 tr9 Hs9. asked Hs9 Hmkdir.
  returned_step Hrun u10 tr10 Hs10. asked Hs10 Hwrite.
  returned_step Hrun u11 tr11 Hs11. logged Hs11.
  returned_step Hrun p12 tr12 Hs12. started Hs12.
  returned_step Hrun u13 tr13 Hs13.
  destruct (copyDawgLookupLicense_run _ _ _ Hs13)
    as (copied & -> & Hcopied' & source & Hsource & Hcopied).
  returned_step Hrun u14 tr14 Hs14. logged Hs14.
  returned_step Hrun p15 tr15 Hs15. started Hs15.
  returned_step Hrun u16 tr16 Hs16.
  destruct (writeMeta_run _ _ _ _ _ Hs16)
    as (written & -> & Hwritten' & meta & meta' & Hread & Hassign
        & Hwritten).
  returned_step Hrun u17 tr17 Hs17. logged Hs17.
  returned_step Hrun u18 tr18 Hs18. logged Hs18.
  injection Hrun as <- <-.
  destruct u3. simpl in Hvalid.
  exists text, packed, source, meta, meta'. cbn [wordsCount dawgBytes dawgSha256].
  split; [exact Htext|]. split; [exact Hvalid|].
  split; [reflexivity|]. split; [reflexivity|]. split; [reflexivity|].
  split; [exact Hsource|]. split; [eexists; exact Hread|].
  split; [exact Hassign|]. split.
  - unfold writes in *. cbn [filter is_write app].
    repeat rewrite filter_app.
    rewrite Himports, Hcopied, Hwritten. reflexivity.
  - cbn [step_lines app]. repeat rewrite step_lines_app.
    rewrite Himports', Hcopied', Hwritten'. reflexivity.
Qed.

Ltac threw_step Hrun a tr1 Hstep :=
  apply bind_threw in Hrun as [Hstep | (a & tr1 & Hstep & Hrun)];
  [ | cbv beta zeta in Hrun ].

Ltac not_started Hstep :=
  rewrite progress_start_run in Hstep; discriminate Hstep.

Ltac not_logged Hstep :=
  unfold progress_done, progress_summary, console_log in Hstep;
  discriminate Hstep.

Ltac not_asked Hstep :=
  unfold readFile, mkdir, writeFile, copyFile in Hstep;
  apply ask_threw in Hstep as (? & Hstep & _); discriminate Hstep.

(** X12: when [buildDawgFromWordsFile] fails because the license of the
    library is not found, the words had passed validation and dict.dawg
    has already been written, while dict.meta.json has not been touched:
    the metadata on disk still describes the artifact of the build
    before. *)
Theorem buildDawgFromWordsFile_without_license (tr : list Action) :
  buildDawgFromWordsFile [] = (Threw LicenseNotFound, tr) ->
  exists text packed,
    fs_readFile [Logged (StepLine 1 5 "Read + validate words.txt")]
                WORDS_PATH = Ok text /\
    BuildDawg.assertSortedUnique (parseWordsFile text) = Ok tt /\
    writes tr = [MadeDir (dirname OUT_PATH); Wrote OUT_PATH packed] /\
    step_lines tr = [(1, 5); (2, 5); (3, 5); (4, 5)].
Proof.
  intros Hrun. unfold buildDawgFromWordsFile in Hrun.
  cbv zeta in Hrun.
  threw_step Hrun p1 tr1 Hs1; [not_started Hs1|]. started Hs1.
  threw_step Hrun text tr2 Hs2; [not_asked Hs2|]. asked Hs2 Htext.
  threw_step Hrun u3 tr3 Hs3.
  { apply lift_threw in Hs3 as (e & Hs3 & _). discriminate Hs3. }
  apply lift_returned in Hs3 as [Hvalid ->].
  threw_step Hrun u4 tr4 Hs4; [not_logged Hs4|]. logged Hs4.
  threw_step Hrun p5 tr5 Hs5; [not_started Hs5|]. started Hs5.
  threw_step Hrun packed tr6 Hs6.
  { destruct (buildPackedDawg_run _ _ _ _ Hs6) as (_ & _ & _ & Hne).
    elim (Hne _ eq_refl eq_refl). }
  destruct (buildPackedDawg_run _ _ _ _ Hs6)
    as (imports & -> & [Himports Himports'] & _).
  threw_step Hrun u7 tr7 Hs7; [not_logged Hs7|]. logged Hs7.
  threw_step Hrun p8 tr8 Hs8; [not_started Hs8|]. started Hs8.
  threw_step Hrun u9 tr9 Hs9; [not_asked Hs9|]. asked Hs9 Hmkdir.
  threw_step Hrun u10 tr10 Hs10; [not_asked Hs10|]. asked Hs10 Hwrite.
  threw_step Hrun u11 tr11 Hs11; [not_logged Hs11|]. logged Hs11.
  threw_step Hrun p12 tr12 Hs12; [not_started Hs12|]. started Hs12.
  threw_step Hrun u13 tr13 Hs13.
  { destruct (copyDawgLookupLicense_run _ _ _ Hs13)
      as (copied & -> & Hcopied' & Hcopied).
    destruct u3. simpl in Hvalid.
    exists text, packed.
    split; [exact Htext|]. split; [exact Hvalid|]. split.
    - unfold writes in *. cbn [filter is_write app].
      repeat rewrite filter_app.
      rewrite Himports, Hcopied. reflexivity.
    - cbn [step_lines app]. repeat rewrite step_lines_app.
      rewrite Himports', Hcopied'. reflexivity. }
  threw_step Hrun u14 tr14 Hs14; [not_logged Hs14|]. logged Hs14.
  threw_step Hrun p15 tr15 Hs15; [not_started Hs15|]. started Hs15.
  threw_step Hrun u16 tr16 Hs16.
  { destruct (writeMeta_run _ _ _ _ _ Hs16) as (_ & _ & _ & Hne).
    elim (Hne eq_refl). }
  threw_step Hrun u17 tr17 Hs17; [not_logged Hs17|]. logged Hs17.
  threw_step Hrun u18 tr18 Hs18; [not_logged Hs18|]. logged Hs18.
  discriminate Hrun.
Qed.

(** X13: when the words of words.txt do not pass [assertSortedUnique],
    [buildDawgFromWordsFile] throws the error of the validator after it
    has read words.txt and before it does anything else: the library is
    not imported and nothing is written. *)
Theorem buildDawgFromWordsFile_rejects_invalid_words
  (text : jsstring) (e : error) :
  fs_readFile [Logged (StepLine 1 5 "Read + validate words.txt")]
              WORDS_PATH = Ok text ->
  BuildDawg.assertSortedUnique (parseWordsFile text) = Err e ->
  buildDawgFromWordsFile []
  = (Threw (Thrown e),
     [Logged (StepLine 1 5 "Read + validate words.txt"); Read WORDS_PATH]).
Proof.
  intros Htext Hinvalid. unfold buildDawgFromWordsFile.
  cbv zeta. unfold bind at 1. rewrite progress_start_run.
  cbn [given app newProgressTracker currentStep totalSteps Nat.add].
  unfold bind at 1. unfold readFile, ask. rewrite Htext.
  unfold bind at 1. rewrite Hinvalid. reflexivity.
Qed.

End Build.

(** ** scripts/build_dawg.mjs: the metadata *)

Lemma str_eqb_eq (a b : jsstring) : str_eqb a b = true <-> a = b.
Proof.
  revert b. induction a as [|x a IH]; intros [|y b]; simpl;
    try (split; [discriminate|congruence]); [split; reflexivity|].
  rewrite andb_true_iff, N.eqb_eq, IH. split.
  - intros [-> ->]. reflexivity.
  - intros [= -> ->]. split; reflexivity.
Qed.

Lemma str_eqb_refl (a : jsstring) : str_eqb a a = true.
Proof. apply str_eqb_eq. reflexivity. Qed.

Lemma str_eqb_neq (a b : jsstring) : a <> b -> str_eqb a b = false.
Proof.
  intros Hne. destruct (str_eqb a b) eqn:Heq; [|reflexivity].
  apply str_eqb_eq in Heq. contradiction.
Qed.

Section Metadata.

Import BuildScript.

Context {number : Type} `{BuildEnv number}.

Lemma get_set_same (key : jsstring) (value : Json number)
  (props : list (jsstring * Json number)) :
  get_prop key (set_prop key value props) = Some value.
Proof.
  induction props as [|[k v] props IH]; simpl.
  - rewrite str_eqb_refl. reflexivity.
  - destruct (str_eqb k key) eqn:Hk; simpl.
    + rewrite str_eqb_refl. reflexivity.
    + rewrite Hk. exact IH.
Qed.

Lemma get_set_other (key key' : jsstring) (value : Json number)
  (props : list (jsstring * Json number)) :
  key' <> key ->
  get_prop key' (set_prop key value props) = get_prop key' props.
Proof.
  intros Hne. induction props as [|[k v] props IH]; simpl.
  - rewrite str_eqb_neq by congruence. reflexivity.
  - destruct (str_eqb k key) eqn:Hk; simpl.
    + apply str_eqb_eq in Hk. subst k.
      rewrite !str_eqb_neq by congruence. reflexivity.
    + rewrite IH. reflexivity.
Qed.

Lemma set_set_same (key : jsstring) (v1 v2 : Json number)
  (props : list (jsstring * Json number)) :
  set_prop key v2 (set_prop key v1 props) = set_prop key v2 props.
Proof.
  induction props as [|[k v] props IH]; simpl.
  - rewrite str_eqb_refl. reflexivity.
  - destruct (str_eqb k key) eqn:Hk; simpl.
    + rewrite str_eqb_refl. reflexivity.
    + rewrite Hk, IH. reflexivity.
Qed.

(** Setting a property that exists does not move it: it commutes with
    setting another one. *)
Lemma set_set_present (k1 k2 : jsstring) (v1 v2 : Json number)
  (props : list (jsstring * Json number)) :
  get_prop k1 props <> None -> k1 <> k2 ->
  set_prop k1 v1 (set_prop k2 v2 props)
  = set_prop k2 v2 (set_prop k1 v1 props).
Proof.
  intros Hpresent Hne.
  induction props as [|[k v] props IH]; simpl in *; [congruence|].
  destruct (str_eqb k k1) eqn:Hk1.
  - apply str_eqb_eq in Hk1. subst k.
    rewrite (str_eqb_neq k1 k2 Hne). simpl.
    rewrite str_eqb_refl, (str_eqb_neq k1 k2 Hne). reflexivity.
  - destruct (str_eqb k k2) eqn:Hk2; simpl.
    + apply str_eqb_eq in Hk2. subst k.
      rewrite str_eqb_neq by congruence. rewrite str_eqb_refl.
      reflexivity.
    + rewrite Hk1, Hk2, (IH Hpresent). reflexivity.
Qed.

(** Assigning the three properties again overrides the first values and
    keeps everything in place. *)
Lemma new_artifacts_again (old : option (Json number))
  (bytes1 bytes2 : N) (sha1 sha2 : jsstring) :
  new_artifacts (Some (JObject (new_artifacts old bytes1 sha1)))
                bytes2 sha2
  = new_artifacts old bytes2 sha2.
Proof.
  unfold new_artifacts. cbn [spread].
  set (file := JString DAWG_FILE_NAME).
  set (copied := match old with
                 | Some JNull | None => []
                 | Some value => spread value
                 end).
  rewrite (set_set_present (js "dawgFile") (js "dawgSha256")).
  2:{ rewrite get_set_other by (vm_compute; discriminate).
      rewrite get_set_same. discriminate. }
  2:{ vm_compute. discriminate. }
  rewrite (set_set_present (js "dawgFile") (js "dawgBytes")).
  2:{ rewrite get_set_same. discriminate. }
  2:{ vm_compute. discriminate. }
  rewrite set_set_same.
  rewrite (set_set_present (js "dawgBytes") (js "dawgSha256")).
  2:{ rewrite get_set_same. discriminate. }
  2:{ vm_compute. discriminate. }
  rewrite set_set_same, set_set_same. reflexivity.
Qed.

(** X14: on metadata that is an object, the assignment of [artifacts]
    sets [dawgFile], [dawgBytes] and [dawgSha256], keeps every other
    property of the object, and keeps every other property that the
    object [artifacts] had before. *)
Theorem assign_artifacts_object
  (props : list (jsstring * Json number)) (bytes : N) (sha : jsstring) :
  exists props' artifacts,
    assign_artifacts (JObject props) bytes sha = Ok (JObject props') /\
    get_prop (js "artifacts") props' = Some (JObject artifacts) /\
    get_prop (js "dawgFile") artifacts = Some (JString DAWG_FILE_NAME) /\
    get_prop (js "dawgBytes") artifacts
    = Some (JNumber (number_of_N bytes)) /\
    get_prop (js "dawgSha256") artifacts = Some (JString sha) /\
    (forall key, key <> js "artifacts" ->
       get_prop key props' = get_prop key props) /\
    (forall key old,
       get_prop (js "artifacts") props = Some (JObject old) ->
       key <> js "dawgFile" -> key <> js "dawgBytes" ->
       key <> js "dawgSha256" ->
       get_prop key artifacts = get_prop key old).
Proof.
  eexists. eexists. split; [reflexivity|].
  split; [apply get_set_same|]. unfold new_artifacts.
  split.
  { rewrite !get_set_other by (vm_compute; discriminate).
    apply get_set_same. }
  split.
  { rewrite get_set_other by (vm_compute; discriminate).
    apply get_set_same. }
  split; [apply get_set_same|].
  split; [intros key Hkey; apply get_set_other, Hkey|].
  intros key old Hold Hfile Hbytes Hsha.
  rewrite !get_set_other by assumption.
  cbn [artifacts_of]. rewrite Hold. reflexivity.
Qed.

(** X15: the metadata after two builds is the metadata after the second
    one alone: assigning [artifacts] twice gives what the second
    assignment gives on the original, so that a rebuild with the same
    artifact changes nothing. *)
Theorem assign_artifacts_last_wins
  (meta meta1 : Json number) (bytes1 bytes2 : N) (sha1 sha2 : jsstring) :
  assign_artifacts meta bytes1 sha1 = Ok meta1 ->
  assign_artifacts meta1 bytes2 sha2 = assign_artifacts meta bytes2 sha2.
Proof.
  destruct meta as [ | | | |items|props]; simpl; try discriminate.
  - intros [= <-]. reflexivity.
  - intros [= <-]. simpl. rewrite get_set_same, set_set_same.
    rewrite new_artifacts_again. reflexivity.
Qed.

(** X16: when dict.meta.json does not exist (the read fails with the
    code ENOENT), [writeMeta] starts from the empty object: it writes a
    file with [artifacts] alone. *)
Theorem writeMeta_creates_missing_metadata
  (tr : list Action) (e : error) (bytes : N) (sha : jsstring) :
  fs_readFile tr META_PATH = Err e ->
  error_code e = Some "ENOENT"%string ->
  fs_mkdir (tr ++ [Read META_PATH]) (dirname META_PATH) = Ok tt ->
  fs_writeFile (tr ++ [Read META_PATH; MadeDir (dirname META_PATH)])
               META_PATH
               (JSON_stringify (fresh_metadata bytes sha) ++ [10%N])
  = Ok tt ->
  writeMeta bytes sha tr
  = (Returned tt,
     tr ++ [Read META_PATH; MadeDir (dirname META_PATH);
            Wrote META_PATH
                  (JSON_stringify (fresh_metadata bytes sha) ++ [10%N])]).
Proof.
  intros Hread Hcode Hmkdir Hwrite.
  assert (Hjson : readJson META_PATH tr
                  = (Returned (JObject []), tr ++ [Read META_PATH])).
  { unfold readJson, bind, attempt, readFile, ask, lift, is_ENOENT.
    rewrite Hread. simpl. rewrite Hcode. reflexivity. }
  unfold writeMeta. unfold bind at 1. rewrite Hjson.
  unfold bind at 1.
  change (assign_artifacts (JObject []) bytes sha)
    with (Ok (fresh_metadata bytes sha)).
  cbn [lift ret]. unfold bind, mkdir, writeFile, ask.
  rewrite Hmkdir. rewrite <- app_assoc. cbn [app].
  rewrite Hwrite. rewrite <- app_assoc. reflexivity.
Qed.

(** X17: metadata that cannot be read for another reason, or that is not
    JSON, is left alone: [writeMeta] rethrows the error and writes
    nothing. *)
Theorem writeMeta_keeps_unreadable_metadata
  (tr : list Action) (e : error) (bytes : N) (sha : jsstring) :
  fs_readFile tr META_PATH = Err e \/
  (exists raw, fs_readFile tr META_PATH = Ok raw /\ JSON_parse raw = Err e) ->
  error_code e <> Some "ENOENT"%string ->
  writeMeta bytes sha tr = (Threw (Thrown e), tr ++ [Read META_PATH]).
Proof.
  intros Hread Hcode.
  assert (Hno : match error_code e with
                | Some code => String.eqb code "ENOENT"
                | None => false
                end = false).
  { destruct (error_code e) as [code|]; [|reflexivity].
    destruct (String.eqb_spec code "ENOENT"); [congruence|reflexivity]. }
  unfold writeMeta, readJson, bind, attempt, readFile, ask, lift,
    is_ENOENT.
  destruct Hread as [Hread|(raw & Hread & Hparse)]; rewrite Hread.
  - cbn. rewrite Hno. reflexivity.
  - cbn. rewrite Hparse. cbn. rewrite Hno. reflexivity.
Qed.

End Metadata.

(** ** The properties above on the sample hosts *)

Lemma loaded_trie_is_kept_witness :
  Dict.Reachable (H := nodeAsciiHost)
    (world_after (successfulLoad scenarioWords)) /\
  Dict.step (H := nodeAsciiHost)
    (world_after (successfulLoad scenarioWords)) (Dict.Call None)
  = Some (world_after (successfulLoad scenarioWords), Dict.Returns) /\
  Dict.trie (Dict.vars (world_after (successfulLoad scenarioWords)))
  = Some (wordsTrie scenarioWords) /\
  Dict.trie (Dict.vars (world_after (successfulLoad scenarioWords)))
  = Some (wordsTrie scenarioWords).
Proof.
  assert (Hreach : Dict.Reachable (H := nodeAsciiHost)
                     (world_after (successfulLoad scenarioWords))).
  { apply world_after_reachable. vm_compute. discriminate. }
  split; [exact Hreach|]. split; [reflexivity|]. split; [reflexivity|].
  exact (@loaded_trie_is_kept nodeAsciiHost
           (world_after (successfulLoad scenarioWords))
           (world_after (successfulLoad scenarioWords))
           (Dict.Call None) Dict.Returns (wordsTrie scenarioWords)
           Hreach eq_refl eq_refl).
Defined.

Lemma trie_set_iff_a_load_succeeded_witness :
  Dict.Reachable (H := nodeAsciiHost)
    (world_after (successfulLoad scenarioWords)) /\
  (Dict.trie (Dict.vars (world_after (successfulLoad scenarioWords)))
   <> None <->
   exists p t,
     nth_error (Dict.tasks (world_after (successfulLoad scenarioWords))) p
     = Some t /\
     Dict.stage t = Dict.Done (Ok tt)).
Proof.
  assert (Hreach : Dict.Reachable (H := nodeAsciiHost)
                     (world_after (successfulLoad scenarioWords))).
  { apply world_after_reachable. vm_compute. discriminate. }
  split; [exact Hreach|].
  exact (@trie_set_iff_a_load_succeeded nodeAsciiHost
           (world_after (successfulLoad scenarioWords)) Hreach).
Defined.

Lemma at_most_two_fetches_per_load_witness :
  Dict.Reachable (H := nodeAsciiHost)
    (world_after (successfulLoad scenarioWords)) /\
  length (Dict.requests (world_after (successfulLoad scenarioWords)))
  <= 2 * length (Dict.tasks (world_after (successfulLoad scenarioWords))).
Proof.
  assert (Hreach : Dict.Reachable (H := nodeAsciiHost)
                     (world_after (successfulLoad scenarioWords))).
  { apply world_after_reachable. vm_compute. discriminate. }
  split; [exact Hreach|].
  exact (@at_most_two_fetches_per_load nodeAsciiHost
           (world_after (successfulLoad scenarioWords)) Hreach).
Defined.

Lemma successful_load_installs_trie_witness :
  Dict.trie (Dict.vars (world_after failedLoad)) = None /\
  Dict.loadPromise (Dict.vars (world_after failedLoad)) = None /\
  Dict.resolveAssetUrl (H := nodeAsciiHost) (js "/dict.meta.json")
    (Dict.dawgFile_of {| Dict.artifacts := None |}) = Ok (js "dict.dawg") /\
  Dict.resolvePTrie (ptrieModule scenarioWords)
  = Ok (fun _ => Ok (wordsTrie scenarioWords)) /\
  (fun _ : jsstring => Ok (wordsTrie scenarioWords)) (js "packed")
  = Ok (wordsTrie scenarioWords) /\
  ([Err (HostError "Cannot find module");
    Ok (ptrieModule scenarioWords)]
   = [Ok (ptrieModule scenarioWords)] \/
   exists e, [Err (HostError "Cannot find module");
              Ok (ptrieModule scenarioWords)]
             = [Err e; Ok (ptrieModule scenarioWords)]) /\
  exists w' outs,
    Dict.run (H := nodeAsciiHost) (world_after failedLoad)
      (DictRuns.loadEvents (length (Dict.tasks (world_after failedLoad)))
         (js "/dict.meta.json") 200
         {| Dict.artifacts := None |} 200 (js "packed")
         [Err (HostError "Cannot find module");
          Ok (ptrieModule scenarioWords)])
    = Some (w', outs) /\
    hd Dict.Silent outs
    = Dict.Awaits (length (Dict.tasks (world_after failedLoad))) /\
    last outs Dict.Silent = Dict.Settles (Ok tt) /\
    Dict.vars w' = Dict.loadedWith (wordsTrie scenarioWords) /\
    Dict.requests w'
    = Dict.requests (world_after failedLoad)
      ++ [js "/dict.meta.json"; js "dict.dawg"] /\
    Dict.tasks w'
    = Dict.tasks (world_after failedLoad)
      ++ [{| Dict.stage := Dict.Done (Ok tt);
             Dict.ownerWaiting := false |}] /\
    forall s,
      Dict.outcome (Dict.isWord (H := nodeAsciiHost) s (Dict.vars w')) =
      (if Dict.is_empty (Dict.normalizeWord (H := nodeAsciiHost) s)
       then Ok false
       else TrieLike.isWord (wordsTrie scenarioWords)
              (Dict.normalizeWord (H := nodeAsciiHost) s)).
Proof.
  split; [reflexivity|]. split; [reflexivity|].
  split; [reflexivity|]. split; [reflexivity|]. split; [reflexivity|].
  assert (Himports :
    [Err (HostError "Cannot find module"); Ok (ptrieModule scenarioWords)]
    = [Ok (ptrieModule scenarioWords)] \/
    exists e, [Err (HostError "Cannot find module");
               Ok (ptrieModule scenarioWords)]
              = [Err e; Ok (ptrieModule scenarioWords)]).
  { right. exists (HostError "Cannot find module"). reflexivity. }
  split; [exact Himports|].
  exact (@successful_load_installs_trie nodeAsciiHost
           (world_after failedLoad)
           (js "/dict.meta.json") 200 {| Dict.artifacts := None |} 200
           (js "dict.dawg") (js "packed") (ptrieModule scenarioWords)
           (fun _ => Ok (wordsTrie scenarioWords))
           (wordsTrie scenarioWords)
           [Err (HostError "Cannot find module");
            Ok (ptrieModule scenarioWords)]
           eq_refl eq_refl eq_refl eq_refl eq_refl Himports).
Defined.

(** The retry after the failed load is the load with promise 1 and
    fetches the metadata a second time. *)
Example retry_after_failed_load :
  length (Dict.tasks (world_after failedLoad)) = 1 /\
  Dict.requests (world_after failedLoad) = [js "/dict.meta.json"] /\
  match Dict.run (H := nodeAsciiHost) (world_after failedLoad)
          (DictRuns.loadEvents 1 (js "/dict.meta.json") 200
             {| Dict.artifacts := None |} 200 (js "packed")
             [Ok (ptrieModule scenarioWords)]) with
  | Some (w', outs) =>
      Dict.vars w' = Dict.loadedWith (wordsTrie scenarioWords) /\
      Dict.requests w'
      = [js "/dict.meta.json"; js "/dict.meta.json"; js "dict.dawg"] /\
      hd Dict.Silent outs = Dict.Awaits 1
  | None => False
  end.
Proof. repeat split. Qed.

Lemma queries_same_on_normalized_input_witness :
  (forall s, forallb isAZ s = true ->
             toUpperCase (Host := nodeAsciiHost) s = s) /\
  (Dict.isWord (H := nodeAsciiHost)
     (Dict.normalizeWord (H := nodeAsciiHost) (js "can't")) scenarioVars
   = Dict.isWord (H := nodeAsciiHost) (js "can't") scenarioVars /\
   Dict.isPrefix (H := nodeAsciiHost)
     (Dict.normalizeWord (H := nodeAsciiHost) (js "can't")) scenarioVars
   = Dict.isPrefix (H := nodeAsciiHost) (js "can't") scenarioVars).
Proof.
  split; [exact nodeAsciiHost_toUpperCase_AZ|].
  exact (@queries_same_on_normalized_input nodeAsciiHost
           nodeAsciiHost_toUpperCase_AZ (js "can't") scenarioVars).
Defined.

Lemma buildDawgFromWordsFile_returns_witness :
  @BuildScript.buildDawgFromWordsFile N firstBuildEnv []
  = (BuildScript.Returned firstBuildResult, buildTrace firstBuildEnv) /\
  exists text packed source meta meta',
    @BuildScript.fs_readFile N firstBuildEnv
      [BuildScript.Logged
         (BuildScript.StepLine 1 5 "Read + validate words.txt")]
      BuildScript.WORDS_PATH = Ok text /\
    BuildDawg.assertSortedUnique (BuildScript.parseWordsFile text) = Ok tt /\
    BuildScript.wordsCount firstBuildResult
    = length (BuildScript.parseWordsFile text) /\
    BuildScript.dawgBytes firstBuildResult = BuildScript.byteLength packed /\
    BuildScript.dawgSha256 firstBuildResult
    = @BuildScript.sha256Hex N firstBuildEnv packed /\
    In source BuildScript.candidates /\
    (exists before,
       @BuildScript.readJson N firstBuildEnv BuildScript.META_PATH before
       = (BuildScript.Returned meta,
          before ++ [BuildScript.Read BuildScript.META_PATH])) /\
    @BuildScript.assign_artifacts N firstBuildEnv meta
      (BuildScript.dawgBytes firstBuildResult)
      (BuildScript.dawgSha256 firstBuildResult) = Ok meta' /\
    BuildScript.writes (buildTrace firstBuildEnv)
    = [BuildScript.MadeDir (BuildScript.dirname BuildScript.OUT_PATH);
       BuildScript.Wrote BuildScript.OUT_PATH packed;
       BuildScript.MadeDir BuildScript.LICENSES_DIR;
       BuildScript.Copied source BuildScript.DAWG_LICENSE_DEST;
       BuildScript.MadeDir (BuildScript.dirname BuildScript.META_PATH);
       BuildScript.Wrote BuildScript.META_PATH
         (@BuildScript.JSON_stringify N firstBuildEnv meta' ++ [10%N])] /\
    BuildScript.step_lines (buildTrace firstBuildEnv)
    = [(1, 5); (2, 5); (3, 5); (4, 5); (5, 5)].
Proof.
  split; [reflexivity|].
  exact (@buildDawgFromWordsFile_returns N firstBuildEnv firstBuildResult
           (buildTrace firstBuildEnv) eq_refl).
Defined.

Lemma buildDawgFromWordsFile_without_license_witness :
  @BuildScript.buildDawgFromWordsFile N noLicenseEnv []
  = (BuildScript.Threw BuildScript.LicenseNotFound,
     buildTrace noLicenseEnv) /\
  exists text packed,
    @BuildScript.fs_readFile N noLicenseEnv
      [BuildScript.Logged
         (BuildScript.StepLine 1 5 "Read + validate words.txt")]
      BuildScript.WORDS_PATH = Ok text /\
    BuildDawg.assertSortedUnique (BuildScript.parseWordsFile text) = Ok tt /\
    BuildScript.writes (buildTrace noLicenseEnv)
    = [BuildScript.MadeDir (BuildScript.dirname BuildScript.OUT_PATH);
       BuildScript.Wrote BuildScript.OUT_PATH packed] /\
    BuildScript.step_lines (buildTrace noLicenseEnv)
    = [(1, 5); (2, 5); (3, 5); (4, 5)].
Proof.
  split; [reflexivity|].
  exact (@buildDawgFromWordsFile_without_license N noLicenseEnv
           (buildTrace noLicenseEnv) eq_refl).
Defined.

Lemma buildDawgFromWordsFile_rejects_invalid_words_witness :
  @BuildScript.fs_readFile N unsortedEnv
    [BuildScript.Logged
       (BuildScript.StepLine 1 5 "Read + validate words.txt")]
    BuildScript.WORDS_PATH = Ok unsortedWordsText /\
  BuildDawg.assertSortedUnique (BuildScript.parseWordsFile unsortedWordsText)
  = Err (SortedUniqueError 0 (js "B") 1 (js "A")) /\
  @BuildScript.buildDawgFromWordsFile N unsortedEnv []
  = (BuildScript.Threw
       (BuildScript.Thrown (SortedUniqueError 0 (js "B") 1 (js "A"))),
     [BuildScript.Logged
        (BuildScript.StepLine 1 5 "Read + validate words.txt");
      BuildScript.Read BuildScript.WORDS_PATH]).
Proof.
  split; [reflexivity|]. split; [reflexivity|].
  exact (@buildDawgFromWordsFile_rejects_invalid_words N unsortedEnv
           unsortedWordsText (SortedUniqueError 0 (js "B") 1 (js "A"))
           eq_refl eq_refl).
Defined.

Lemma assign_artifacts_last_wins_witness :
  @BuildScript.assign_artifacts N firstBuildEnv
    (BuildScript.JObject [(js "source", BuildScript.JString (js "SCOWL"))])
    6 (js "first")
  = Ok (BuildScript.JObject
          [(js "source", BuildScript.JString (js "SCOWL"));
           (js "artifacts",
            BuildScript.JObject
              [(js "dawgFile",
                BuildScript.JString BuildScript.DAWG_FILE_NAME);
               (js "dawgBytes", BuildScript.JNumber 6%N);
               (js "dawgSha256", BuildScript.JString (js "first"))])]) /\
  @BuildScript.assign_artifacts N firstBuildEnv
    (BuildScript.JObject
       [(js "source", BuildScript.JString (js "SCOWL"));
        (js "artifacts",
         BuildScript.JObject
           [(js "dawgFile", BuildScript.JString BuildScript.DAWG_FILE_NAME);
            (js "dawgBytes", BuildScript.JNumber 6%N);
            (js "dawgSha256", BuildScript.JString (js "first"))])])
    7 (js "second")
  = @BuildScript.assign_artifacts N firstBuildEnv
      (BuildScript.JObject [(js "source", BuildScript.JString (js "SCOWL"))])
      7 (js "second").
Proof.
  split; [reflexivity|].
  exact (@assign_artifacts_last_wins N firstBuildEnv
           (BuildScript.JObject
              [(js "source", BuildScript.JString (js "SCOWL"))])
           _ 6%N 7%N (js "first") (js "second") eq_refl).
Defined.

Lemma writeMeta_creates_missing_metadata_witness :
  @BuildScript.fs_readFile N firstBuildEnv [] BuildScript.META_PATH
  = Err (HostError "ENOENT") /\
  @BuildScript.error_code N firstBuildEnv (HostError "ENOENT")
  = Some "ENOENT"%string /\
  @BuildScript.fs_mkdir N firstBuildEnv
    ([] ++ [BuildScript.Read BuildScript.META_PATH])
    (BuildScript.dirname BuildScript.META_PATH) = Ok tt /\
  @BuildScript.fs_writeFile N firstBuildEnv
    ([] ++ [BuildScript.Read BuildScript.META_PATH;
            BuildScript.MadeDir (BuildScript.dirname BuildScript.META_PATH)])
    BuildScript.META_PATH
    (@BuildScript.JSON_stringify N firstBuildEnv
       (@BuildScript.fresh_metadata N firstBuildEnv 6 (js "hash"))
     ++ [10%N]) = Ok tt /\
  @BuildScript.writeMeta N firstBuildEnv 6 (js "hash") []
  = (BuildScript.Returned tt,
     [] ++ [BuildScript.Read BuildScript.META_PATH;
            BuildScript.MadeDir (BuildScript.dirname BuildScript.META_PATH);
            BuildScript.Wrote BuildScript.META_PATH
              (@BuildScript.JSON_stringify N firstBuildEnv
                 (@BuildScript.fresh_metadata N firstBuildEnv 6 (js "hash"))
               ++ [10%N])]).
Proof.
  split; [reflexivity|]. split; [reflexivity|]. split; [reflexivity|].
  split; [reflexivity|].
  exact (@writeMeta_creates_missing_metadata N firstBuildEnv []
           (HostError "ENOENT") 6%N (js "hash")
           eq_refl eq_refl eq_refl eq_refl).
Defined.

Lemma writeMeta_keeps_unreadable_metadata_witness :
  (@BuildScript.fs_readFile N corruptMetaEnv [] BuildScript.META_PATH
   = Err (HostError "SyntaxError") \/
   exists raw,
     @BuildScript.fs_readFile N corruptMetaEnv [] BuildScript.META_PATH
     = Ok raw /\
     @BuildScript.JSON_parse N corruptMetaEnv raw
     = Err (HostError "SyntaxError")) /\
  @BuildScript.error_code N corruptMetaEnv (HostError "SyntaxError")
  <> Some "ENOENT"%string /\
  @BuildScript.writeMeta N corruptMetaEnv 6 (js "hash") []
  = (BuildScript.Threw (BuildScript.Thrown (HostError "SyntaxError")),
     [] ++ [BuildScript.Read BuildScript.META_PATH]).
Proof.
  assert (Hread :
    @BuildScript.fs_readFile N corruptMetaEnv [] BuildScript.META_PATH
    = Err (HostError "SyntaxError") \/
    exists raw,
      @BuildScript.fs_readFile N corruptMetaEnv [] BuildScript.META_PATH
      = Ok raw /\
      @BuildScript.JSON_parse N corruptMetaEnv raw
      = Err (HostError "SyntaxError")).
  { right. exists (js "not json"). split; reflexivity. }
  assert (Hcode :
    @BuildScript.error_code N corruptMetaEnv (HostError "SyntaxError")
    <> Some "ENOENT"%string) by (simpl; discriminate).
  split; [exact Hread|]. split; [exact Hcode|].
  exact (@writeMeta_keeps_unreadable_metadata N corruptMetaEnv []
           (HostError "SyntaxError") 6%N (js "hash") Hread Hcode).
Defined.
